(** * Tailwind colour generator: gradients, palettes, schemes and formatting

    A shallow embedding of the colour arithmetic of the editor extension
    ([extension.js]) and of the stdio server ([mcp-server.js]), with the
    properties stated about them.

    Doubles are modelled by exact rationals ([Q]); [NaN] is a separate
    constructor of [number].  String contents are byte strings. *)

From Stdlib Require Import ZArith QArith Qround String Ascii List Bool Lia Lqa.
From Stdlib Require Import Sorting.Sorted Sorting.Permutation.
Import ListNotations.

Local Open Scope string_scope.
Local Open Scope Z_scope.

(* ================================================================== *)
(** ** JavaScript values and primitives used by the sources *)

Module JS.

(** A JavaScript number: an exact rational for every finite double, or NaN. *)
Inductive number : Type :=
| Num (q : Q)
| NaN.

(** A value that is either a string or [undefined] (an array read out of
    range). *)
Inductive value : Type :=
| Str (s : string)
| Undefined.

(** Outcome of a call: a returned value or a thrown [Error(message)]. *)
Inductive result (A : Type) : Type :=
| Return (a : A)
| Throw (message : string).
Arguments Return {A} a.
Arguments Throw {A} message.

Definition Math_floor (x : Q) : Z := Qfloor x.
Definition Math_ceil (x : Q) : Z := Qceiling x.
(** [Math.round] rounds to the nearest integer, ties towards +infinity. *)
Definition Math_round (x : Q) : Z := Qfloor (x + (1 # 2)).

Definition num_eq (a b : number) : Prop :=
  match a, b with
  | Num x, Num y => (x == y)%Q
  | _, _ => False
  end.

Definition num_lt (a b : number) : Prop :=
  match a, b with
  | Num x, Num y => (x < y)%Q
  | _, _ => False
  end.

(** [ToInt32]: the operand conversion of the bitwise operators. *)
Definition toInt32 (z : Z) : Z := (z + 2 ^ 31) mod 2 ^ 32 - 2 ^ 31.

(** [x << n] on integers, for a shift count below 32. *)
Definition shl (x n : Z) : Z := toInt32 (Z.shiftl (toInt32 x) n).

(** Digits of [Number.prototype.toString(radix)] for an integer. *)
Definition digitChar (d : Z) : ascii :=
  match d with
  | 0 => "0" | 1 => "1" | 2 => "2" | 3 => "3" | 4 => "4"
  | 5 => "5" | 6 => "6" | 7 => "7" | 8 => "8" | 9 => "9"
  | 10 => "a" | 11 => "b" | 12 => "c" | 13 => "d" | 14 => "e"
  | _ => "f"
  end%char.

Fixpoint digits (radix : Z) (fuel : nat) (n : Z) (acc : string) : string :=
  match fuel with
  | O => acc
  | S fuel' =>
      let acc' := String (digitChar (n mod radix)) acc in
      if n / radix =? 0 then acc' else digits radix fuel' (n / radix) acc'
  end.

Definition toStringRadix (radix : Z) (n : Z) : string :=
  if n <? 0
  then "-" ++ digits radix (S (Z.to_nat (Z.log2 (- n)))) (- n) ""
  else digits radix (S (Z.to_nat (Z.log2 n))) n "".

Definition toString16 : Z -> string := toStringRadix 16.
Definition toString10 : Z -> string := toStringRadix 10.

(** [s.slice(1)] *)
Definition slice1 (s : string) : string :=
  match s with
  | EmptyString => EmptyString
  | String _ rest => rest
  end.

(** [s.padStart(n, '0')] *)
Definition padStart0 (n : nat) (s : string) : string :=
  String.concat "" (repeat "0" (n - String.length s)) ++ s.

(** Value of a hexadecimal digit, either case. *)
Definition hexValue (c : ascii) : option Z :=
  let n := Z.of_nat (nat_of_ascii c) in
  if (48 <=? n) && (n <=? 57) then Some (n - 48)
  else if (97 <=? n) && (n <=? 102) then Some (n - 87)
  else if (65 <=? n) && (n <=? 70) then Some (n - 55)
  else None.

(** [arr[i]] for an integer index. *)
Definition index (arr : list string) (i : Z) : value :=
  if i <? 0 then Undefined
  else match nth_error arr (Z.to_nat i) with
       | Some s => Str s
       | None => Undefined
       end.

End JS.

Import JS.

(* ================================================================== *)
(** ** Gradient engine ([extension.js]) *)

Module Gradient.

Record rgb : Type := mkRgb { r : Z; g : Z; b : Z }.

Definition parseHex2 (c1 c2 : ascii) : option Z :=
  match hexValue c1, hexValue c2 with
  | Some hi, Some lo => Some (16 * hi + lo)
  | _, _ => None
  end.

(** The optional leading [#] of the pattern. *)
Definition stripHash (s : string) : string :=
  match s with
  | String "#"%char rest => rest
  | _ => s
  end.

(** [hexToRgb]: the pattern [/^#?([a-f\d]{2})([a-f\d]{2})([a-f\d]{2})$/i];
    [None] is the [null] of a failed match.  [undefined] is matched as
    the text "undefined", which fails. *)
Definition hexToRgbStr (hex : string) : option rgb :=
  match stripHash hex with
  | String c1 (String c2 (String c3 (String c4 (String c5 (String c6 EmptyString))))) =>
      match parseHex2 c1 c2, parseHex2 c3 c4, parseHex2 c5 c6 with
      | Some r, Some g, Some b => Some (mkRgb r g b)
      | _, _, _ => None
      end
  | _ => None
  end.

Definition hexToRgb (hex : value) : option rgb :=
  match hex with
  | Str s => hexToRgbStr s
  | Undefined => None
  end.

(** [rgbToHex]:
    ["#" + ((1 << 24) + (r << 16) + (g << 8) + b).toString(16).slice(1)] *)
Definition rgbToHex (r g b : Z) : string :=
  "#" ++ slice1 (toString16 (shl 1 24 + shl r 16 + shl g 8 + b)).

(** [interpolateColors].  With a NaN factor every channel is NaN, the sum
    is NaN and the text is "NaN".slice(1). *)
Definition interpolateColors (color1 color2 : value) (factor : number) : value :=
  match hexToRgb color1, hexToRgb color2 with
  | Some rgb1, Some rgb2 =>
      match factor with
      | Num f =>
          let mix (c1 c2 : Z) : Z :=
            Math_round (inject_Z c1 + f * (inject_Z c2 - inject_Z c1)) in
          Str (rgbToHex (mix (r rgb1) (r rgb2))
                        (mix (g rgb1) (g rgb2))
                        (mix (b rgb1) (b rgb2)))
      | NaN => Str ("#" ++ slice1 "NaN")
      end
  | _, _ => color1
  end.

Record stop : Type := mkStop { color : value; position : number }.

(** Body of the loop of [generateGradientStops] at index [i].

    For [steps = 1] the source divides by zero: [stepSize] is Infinity,
    [position = 0 * Infinity] and [colorIndex = (0 / 0) * _] are NaN, both
    array reads are [undefined], [NaN === NaN] is false and
    [interpolateColors] falls back to its first argument. *)
Definition stopAt (colors : list string) (steps i : Z) : stop :=
  if steps =? 1 then
    mkStop (interpolateColors Undefined Undefined NaN) NaN
  else
    let stepSize := (100 / inject_Z (steps - 1))%Q in
    let position := (inject_Z i * stepSize)%Q in
    let colorIndex :=
      ((inject_Z i / inject_Z (steps - 1))
       * inject_Z (Z.of_nat (List.length colors) - 1))%Q in
    let lowerIndex := Math_floor colorIndex in
    let upperIndex := Math_ceil colorIndex in
    let factor := (colorIndex - inject_Z lowerIndex)%Q in
    let interpolatedColor :=
      if lowerIndex =? upperIndex
      then index colors lowerIndex
      else interpolateColors (index colors lowerIndex)
                             (index colors upperIndex) (Num factor) in
    mkStop interpolatedColor
           (Num (inject_Z (Math_round (position * 100)) / 100)%Q).

(** The loop counter [i = 0 .. steps - 1]. *)
Definition loopIndices (steps : Z) : list Z :=
  map Z.of_nat (seq 0 (Z.to_nat steps)).

Definition generateGradientStops (colors : list string) (steps : Z)
  (direction : string) : result (list stop * string) :=
  if Z.of_nat (List.length colors) <? 2 then
    Throw "At least 2 colors are required for gradient generation"
  else
    Return (map (stopAt colors steps) (loopIndices steps), direction).

(** The positions of a stop list, read in order, strictly increase. *)
Definition strictlyIncreasing (l : list number) : Prop :=
  forall i j x y,
    (i < j)%nat -> nth_error l i = Some x -> nth_error l j = Some y ->
    num_lt x y.

(** The raw position [i * stepSize * 100] before rounding. *)
Definition scaled (steps i : Z) : Q :=
  (inject_Z i * (100 / inject_Z (steps - 1)) * 100)%Q.

End Gradient.

(* ================================================================== *)
(** ** Plain objects: own string-keyed properties in enumeration order *)

Module Obj.

(** The list is in the order of [Object.entries] and of [JSON.stringify]:
    array-index keys in ascending numeric order, then the other keys in
    the order of their creation. *)
Definition t (V : Type) : Type := list (string * V).

Fixpoint parseDecimal (s : string) (acc : Z) : option Z :=
  match s with
  | EmptyString => Some acc
  | String c rest =>
      let n := Z.of_nat (nat_of_ascii c) in
      if (48 <=? n) && (n <=? 57)
      then parseDecimal rest (10 * acc + (n - 48))
      else None
  end.

(** An array index is the canonical decimal text of an integer in
    [0, 2^32 - 2]. *)
Definition arrayIndex (k : string) : option Z :=
  match k with
  | EmptyString => None
  | _ =>
      match parseDecimal k 0 with
      | Some v =>
          if String.eqb (toString10 v) k && (v <=? 4294967294)
          then Some v else None
      | None => None
      end
  end.

Fixpoint has {V} (k : string) (o : t V) : bool :=
  match o with
  | [] => false
  | (k', _) :: rest => String.eqb k' k || has k rest
  end.

Fixpoint update {V} (k : string) (v : V) (o : t V) : t V :=
  match o with
  | [] => []
  | (k', v') :: rest =>
      if String.eqb k' k then (k', v) :: rest
      else (k', v') :: update k v rest
  end.

Fixpoint insertIndex {V} (i : Z) (k : string) (v : V) (o : t V) : t V :=
  match o with
  | [] => [(k, v)]
  | (k', v') :: rest =>
      match arrayIndex k' with
      | Some j =>
          if i <? j then (k, v) :: o
          else (k', v') :: insertIndex i k v rest
      | None => (k, v) :: o
      end
  end.

(** [o[k] = v] for a data property: an existing key keeps its place, a
    new array-index key goes among the index keys by value, any other new
    key goes last. *)
Definition set {V} (o : t V) (k : string) (v : V) : t V :=
  if has k o then update k v o
  else match arrayIndex k with
       | Some i => insertIndex i k v o
       | None => (o ++ [(k, v)])%list
       end.

(** [o[k]] *)
Fixpoint get {V} (o : t V) (k : string) : option V :=
  match o with
  | [] => None
  | (k', v) :: rest => if String.eqb k' k then Some v else get rest k
  end.

(** The object obtained from [{}] by the assignments [o[k] = v] of a
    list, in the order of the list. *)
Definition assignAll {V} (bindings : list (string * V)) : t V :=
  fold_left (fun o e => set o (fst e) (snd e)) bindings [].

(** Order of two entries whose keys are array indices. *)
Definition keyLt {V} (e1 e2 : string * V) : Prop :=
  match arrayIndex (fst e1), arrayIndex (fst e2) with
  | Some i, Some j => i < j
  | _, _ => False
  end.

Definition indexed {V} (o : list (string * V)) : Prop :=
  Forall (fun e => exists i, arrayIndex (fst e) = Some i) o.

End Obj.

(* ================================================================== *)
(** ** JSON.stringify(value, null, gap) on objects of strings *)

Module JSON.

#[local] Unset Elimination Schemes.
Inductive json : Type :=
| JString (s : string)
| JObject (members : list (string * json)).
#[local] Set Elimination Schemes.

Definition dquote : string := String "034"%char EmptyString.
Definition backslash : string := String "092"%char EmptyString.
Definition LF : string := String "010"%char EmptyString.

(** QuoteJSONString, one code unit at a time. *)
Definition escapeChar (c : ascii) : string :=
  let n := Z.of_nat (nat_of_ascii c) in
  if n =? 34 then backslash ++ dquote
  else if n =? 92 then backslash ++ backslash
  else if n =? 8 then backslash ++ "b"
  else if n =? 12 then backslash ++ "f"
  else if n =? 10 then backslash ++ "n"
  else if n =? 13 then backslash ++ "r"
  else if n =? 9 then backslash ++ "t"
  else if n <? 32 then backslash ++ "u00" ++ padStart0 2 (toString16 n)
  else String c EmptyString.

Fixpoint escape (s : string) : string :=
  match s with
  | EmptyString => EmptyString
  | String c rest => escapeChar c ++ escape rest
  end.

Definition quote (s : string) : string := dquote ++ escape s ++ dquote.

Definition isEmpty (s : string) : bool :=
  match s with EmptyString => true | _ => false end.

(** SerializeJSONProperty / SerializeJSONObject. *)
Fixpoint serialize (gap indent : string) (v : json) : string :=
  match v with
  | JString s => quote s
  | JObject members =>
      let stepback := indent in
      let indent := indent ++ gap in
      let partial :=
        map (fun m : string * json =>
               let (k, x) := m in
               quote k ++ ":" ++ (if isEmpty gap then "" else " ")
                       ++ serialize gap indent x) members in
      match partial with
      | [] => "{}"
      | _ =>
          if isEmpty gap
          then "{" ++ String.concat "," partial ++ "}"
          else "{" ++ LF ++ indent
                   ++ String.concat ("," ++ LF ++ indent) partial
                   ++ LF ++ stepback ++ "}"
      end
  end.

(** A numeric [space] argument gives that many blanks, at most ten. *)
Definition stringify (v : json) (space : nat) : string :=
  serialize (String.concat "" (repeat " " (Nat.min 10 space))) "" v.

End JSON.

(* ================================================================== *)
(** ** Formatter: [generateTailwindConfig] (both files) *)

Module Config.

Record namedPalette : Type :=
  mkPalette { name : string; palette : Obj.t string }.

(** [colors[name] = palette] on [colors = {}].  The key [__proto__]
    reaches the accessor inherited from [Object.prototype]: it replaces
    the prototype and creates no own property. *)
Definition assign (colors : Obj.t (Obj.t string)) (p : namedPalette)
  : Obj.t (Obj.t string) :=
  if String.eqb (name p) "__proto__" then colors
  else Obj.set colors (name p) (palette p).

Definition collect (palettes : list namedPalette) : Obj.t (Obj.t string) :=
  fold_left assign palettes [].

Definition cssLine (nl colorName shade hex : string) : string :=
  "  --color-" ++ colorName ++ "-" ++ shade ++ ": " ++ hex ++ ";" ++ nl.

(** The two nested [forEach] loops appending to [css]. *)
Definition cssShades (nl colorName : string) (shades : Obj.t string)
  (css : string) : string :=
  fold_left (fun css (e : string * string) =>
               css ++ cssLine nl colorName (fst e) (snd e)) shades css.

Definition cssColors (nl : string) (colors : Obj.t (Obj.t string))
  (css : string) : string :=
  fold_left (fun css (e : string * Obj.t string) =>
               cssShades nl (fst e) (snd e) css) colors css.

Definition toJson (colors : Obj.t (Obj.t string)) : JSON.json :=
  JSON.JObject
    (map (fun e : string * Obj.t string =>
            (fst e,
             JSON.JObject
               (map (fun s : string * string => (fst s, JSON.JString (snd s)))
                    (snd e)))) colors).

(** Concatenation of texts in order. *)
Definition join (l : list string) : string := fold_right String.append "" l.

(** One text per entry of [colors], in enumeration order. *)
Definition cssLines (nl : string) (colors : Obj.t (Obj.t string)) : list string :=
  flat_map (fun e : string * Obj.t string =>
              map (fun s : string * string => cssLine nl (fst e) (fst s) (snd s))
                  (snd e)) colors.

(** The lines of a text: the pieces between line feeds. *)
Fixpoint lines (s : string) : list string :=
  match s with
  | EmptyString => [""]
  | String c rest =>
      if Ascii.eqb c "010" then "" :: lines rest
      else match lines rest with
           | l :: ls => String c l :: ls
           | [] => [String c ""]
           end
  end.

Fixpoint hasLF (s : string) : bool :=
  match s with
  | EmptyString => false
  | String c rest => Ascii.eqb c "010" || hasLF rest
  end.

(** The text of one line, without its line break. *)
Definition lineText (colorName shade hex : string) : string :=
  "  --color-" ++ colorName ++ "-" ++ shade ++ ": " ++ hex ++ ";".

Definition lineTexts (colors : Obj.t (Obj.t string)) : list string :=
  flat_map (fun e : string * Obj.t string =>
              map (fun s : string * string => lineText (fst e) (fst s) (snd s))
                  (snd e)) colors.

Definition plain (colors : Obj.t (Obj.t string)) : Prop :=
  Forall (fun e : string * Obj.t string =>
            hasLF (fst e) = false
            /\ Forall (fun s : string * string =>
                         hasLF (fst s) = false /\ hasLF (snd s) = false)
                      (snd e)) colors.

(** [generateTailwindConfig], with the text the source writes for a line
    break in the [css] branch as a parameter: the two files differ there. *)
Definition generateTailwindConfigWith (nl : string)
  (palettes : list namedPalette) (format : string) : string :=
  let colors := collect palettes in
  if String.eqb format "css" then
    cssColors nl colors (":root {" ++ nl) ++ "}"
  else if String.eqb format "js" then
    "module.exports = {" ++ JSON.LF
    ++ "  theme: {" ++ JSON.LF
    ++ "    extend: {" ++ JSON.LF
    ++ "      colors: " ++ JSON.stringify (toJson colors) 8 ++ JSON.LF
    ++ "    }" ++ JSON.LF
    ++ "  }" ++ JSON.LF
    ++ "}"
  else JSON.stringify (toJson colors) 2.

End Config.

(* ================================================================== *)
(** ** In-process palette and scheme ([extension.js]) *)

Module Extension.

Import Config.

Definition TAILWIND_SHADES : list Z :=
  [50; 100; 200; 300; 400; 500; 600; 700; 800; 900; 950].

(** [baseColor.replace('#', '')]: the first occurrence only. *)
Fixpoint replaceHash (s : string) : string :=
  match s with
  | EmptyString => EmptyString
  | String c rest =>
      if Ascii.eqb c "#" then rest else String c (replaceHash rest)
  end.

Definition isWhiteSpace (c : ascii) : bool :=
  let n := nat_of_ascii c in
  ((9 <=? n) && (n <=? 13) || (n =? 32))%nat.

Fixpoint trimStart (s : string) : string :=
  match s with
  | EmptyString => EmptyString
  | String c rest => if isWhiteSpace c then trimStart rest else s
  end.

(** Longest prefix of hexadecimal digits; [None] when there is none. *)
Fixpoint hexPrefix (s : string) (acc : option Z) : option Z :=
  match s with
  | EmptyString => acc
  | String c rest =>
      match hexValue c with
      | Some d =>
          hexPrefix rest
            (Some (16 * match acc with Some a => a | None => 0 end + d))
      | None => acc
      end
  end.

(** [parseInt(s, 16)]: leading blanks, a sign, an optional [0x], then the
    longest run of digits.  [None] is NaN. *)
Definition parseInt16 (s : string) : option Z :=
  let s1 := trimStart s in
  let (sign, s2) :=
    match s1 with
    | String "-"%char rest => (-1, rest)
    | String "+"%char rest => (1, rest)
    | _ => (1, s1)
    end in
  let s3 :=
    match s2 with
    | String "0"%char (String "x"%char rest) => rest
    | String "0"%char (String "X"%char rest) => rest
    | _ => s2
    end in
  match hexPrefix s3 None with
  | Some v => Some (sign * v)
  | None => None
  end.

(** [n.toString(16).padStart(6, '0')] behind a [#]; NaN prints as "NaN". *)
Definition hexText (n : option Z) : string :=
  "#" ++ padStart0 6 match n with
                      | Some z => toString16 z
                      | None => "NaN"
                      end.

(** Body of the [forEach] of [generateTailwindPalette]: the colour of one
    shade. *)
Definition shadeColor (baseColor : string) (baseColorNum : option Z)
  (shade : Z) : string :=
  let factor := (inject_Z shade / 500)%Q in
  if shade <? 500 then
    hexText
      (option_map
         (fun n =>
            Z.min 255
              (Math_floor (inject_Z n + (255 - inject_Z n) * (1 - factor))%Q))
         baseColorNum)
  else if 500 <? shade then
    hexText
      (option_map
         (fun n =>
            Math_floor (inject_Z n * (1 - (factor - 1) * (7 # 10)))%Q)
         baseColorNum)
  else baseColor.

Definition generateTailwindPalette (baseColor name : string) : namedPalette :=
  let baseColorNum := parseInt16 (replaceHash baseColor) in
  mkPalette name
    (fold_left
       (fun palette shade =>
          Obj.set palette (toString10 shade)
                  (shadeColor baseColor baseColorNum shade))
       TAILWIND_SHADES []).

(** [generateTailwindConfig] of [extension.js]: line breaks are ["\n"]. *)
Definition generateTailwindConfig : list namedPalette -> string -> string :=
  generateTailwindConfigWith JSON.LF.

(** A seed of the in-process scheme tool: the text
    [hsl(<hue>, <sat>%, <light>%)] kept in structured form (the tool never
    reads it back). *)
Record hslText : Type := mkHslText { hue : Q; sat : Z; light : Z }.

Definition strategies (strategy : string) : option (Q -> list hslText) :=
  if String.eqb strategy "complementary" then
    Some (fun hue => [mkHslText hue 80 60; mkHslText (hue + 180) 80 60;
                      mkHslText (hue + 90) 70 50])
  else if String.eqb strategy "analogous" then
    Some (fun hue => [mkHslText hue 80 60; mkHslText (hue + 30) 80 60;
                      mkHslText (hue - 30) 80 60])
  else if String.eqb strategy "monochromatic" then
    Some (fun hue => [mkHslText hue 80 60; mkHslText hue 60 50;
                      mkHslText hue 90 70])
  else if String.eqb strategy "triadic" then
    Some (fun hue => [mkHslText hue 80 60; mkHslText (hue + 120) 80 60;
                      mkHslText (hue + 240) 80 60])
  else None.

(** [colorNames[index] || `color${index + 1}`]: a missing or empty name
    is replaced. *)
Definition paletteName (colorNames : list string) (index : nat) : string :=
  match nth_error colorNames index with
  | Some (String c rest) => String c rest
  | _ => "color" ++ toString10 (Z.of_nat index + 1)
  end.

Fixpoint mapi {A B} (f : A -> nat -> B) (l : list A) (i : nat) : list B :=
  match l with
  | [] => []
  | x :: rest => f x i :: mapi f rest (S i)
  end.

(** The [palettes] of the [generate_color_scheme] tool.  Every seed is
    replaced by the constant ['#3B82F6'] before the palette is derived.
    An unknown strategy calls [undefined] and throws. *)
Definition schemePalettes (strategy : string) (baseHue : Q)
  (colorNames : list string) : result (list namedPalette) :=
  match strategies strategy with
  | Some seeds =>
      let baseColors := seeds baseHue in
      Return
        (mapi (fun (color : hslText) index =>
                 let name := paletteName colorNames index in
                 let hexColor := "#3B82F6" in
                 generateTailwindPalette hexColor name)
              baseColors 0%nat)
  | None => Throw "strategies[strategy] is not a function"
  end.

End Extension.

(* ================================================================== *)
(** ** The colour library used by the server *)

Module Chroma.

Local Open Scope Q_scope.

(** Modelled from the spec: the colour library [chroma-js] that
    [mcp-server.js] imports is not part of the sources.  The definitions
    below are the conversions between the hexadecimal RGB form and the
    HSL form of a colour (hue in degrees, saturation and lightness in
    [0,1]) as that library computes them, with exact rationals in place
    of doubles.  The hue of a grey is NaN. *)
Record color : Type := mkColor { red : Q; green : Q; blue : Q }.

Record hsl : Type := mkHsl { h : number; s : Q; l : Q }.

Definition Qltb (x y : Q) : bool := negb (Qle_bool y x).

Definition Math_max (x y : Q) : Q := if Qle_bool x y then y else x.
Definition Math_min (x y : Q) : Q := if Qle_bool x y then x else y.

(** [chroma(text)] for the six-digit hexadecimal notation, with or
    without [#].  [None]: another notation (three or eight digits, a
    colour name, a css function), which this model does not cover. *)
Definition chroma (text : string) : option color :=
  match Gradient.hexToRgbStr text with
  | Some c =>
      Some (mkColor (inject_Z (Gradient.r c)) (inject_Z (Gradient.g c))
                    (inject_Z (Gradient.b c)))
  | None => None
  end.

(** [color.hsl()] *)
Definition rgb2hsl (c : color) : hsl :=
  let r := red c / 255 in
  let g := green c / 255 in
  let b := blue c / 255 in
  let min := Math_min (Math_min r g) b in
  let max := Math_max (Math_max r g) b in
  let l := (max + min) / 2 in
  if Qeq_bool max min then mkHsl NaN 0 l
  else
    let s := if Qltb l (1 # 2)
             then (max - min) / (max + min)
             else (max - min) / (2 - max - min) in
    let h0 := if Qeq_bool r max then (g - b) / (max - min)
              else if Qeq_bool g max then 2 + (b - r) / (max - min)
              else 4 + (r - g) / (max - min) in
    let h1 := h0 * 60 in
    mkHsl (Num (if Qltb h1 0 then h1 + 360 else h1)) s l.

(** One channel of the HSL to RGB conversion.  Every comparison with a
    NaN hue is false, which selects [t1]. *)
Definition channel (t1 t2 : Q) (t3 : number) : Q :=
  match t3 with
  | NaN => t1
  | Num x0 =>
      let x1 := if Qltb x0 0 then x0 + 1 else x0 in
      let x := if Qltb 1 x1 then x1 - 1 else x1 in
      if Qltb (6 * x) 1 then t1 + (t2 - t1) * 6 * x
      else if Qltb (2 * x) 1 then t2
      else if Qltb (3 * x) 2 then t1 + (t2 - t1) * ((2 # 3) - x) * 6
      else t1
  end.

Definition shift (hue : number) (d : Q) : number :=
  match hue with
  | Num x => Num (x / 360 + d)
  | NaN => NaN
  end.

Definition limit (x : Q) : Q := Math_min (Math_max x 0) 255.

(** [chroma.hsl(h, s, l)]: the channels are clipped to [0,255]. *)
Definition of_hsl (hue : number) (s l : Q) : color :=
  if Qeq_bool s 0 then
    mkColor (limit (l * 255)) (limit (l * 255)) (limit (l * 255))
  else
    let t2 := if Qltb l (1 # 2) then l * (1 + s) else l + s - l * s in
    let t1 := 2 * l - t2 in
    let c (d : Q) : Q :=
      limit (inject_Z (Math_round (channel t1 t2 (shift hue d) * 255))) in
    mkColor (c (1 # 3)) (c 0) (c (- (1 # 3))).

(** [color.hex()]: the channels are rounded, packed with [<<] and [|],
    and printed on six digits. *)
Definition hex (c : color) : string :=
  let r := Math_round (red c) in
  let g := Math_round (green c) in
  let b := Math_round (blue c) in
  let u := Z.lor (Z.lor (shl r 16) (shl g 8)) (toInt32 b) in
  let str := ("000000" ++ toString16 u)%string in
  "#" ++ substring (String.length str - 6) 6 str.

End Chroma.

(* ================================================================== *)
(** ** Server palette and scheme ([mcp-server.js]) *)

Module McpServer.

Import Config.
Local Open Scope Q_scope.

Definition TAILWIND_SHADES : list Z :=
  [50; 100; 200; 300; 400; 500; 600; 700; 800; 900; 950]%Z.

(** The arguments the source passes to [chroma.hsl] for one shade. *)
Definition shadeHsl (base : Chroma.hsl) (shade : Z) : Chroma.hsl :=
  if (shade <=? 500)%Z then
    let ratio := (500 - inject_Z shade) / 450 in
    let lightness :=
      Chroma.l base + ((95 # 100) - Chroma.l base) * ratio in
    let saturation :=
      Chroma.Math_max (1 # 10) (Chroma.s base * (1 - ratio * (7 # 10))) in
    Chroma.mkHsl (Chroma.h base) saturation lightness
  else
    let ratio := (inject_Z shade - 500) / 450 in
    let lightness := Chroma.l base * (1 - ratio * (85 # 100)) in
    let saturation :=
      Chroma.Math_min 1 (Chroma.s base * (1 + ratio * (2 # 10))) in
    Chroma.mkHsl (Chroma.h base) saturation lightness.



Definition shadeColor (base : Chroma.color) (shade : Z) : string :=
  let x := shadeHsl (Chroma.rgb2hsl base) shade in
  Chroma.hex (Chroma.of_hsl (Chroma.h x) (Chroma.s x) (Chroma.l x)).

Definition paletteOf (base : Chroma.color) (name : string) : namedPalette :=
  mkPalette name
    (fold_left
       (fun palette shade =>
          Obj.set palette (toString10 shade) (shadeColor base shade))
       TAILWIND_SHADES []).

(** [generateTailwindPalette] of the server; [None] only where
    [Chroma.chroma] is. *)
Definition generateTailwindPalette (baseColor name : string)
  : option namedPalette :=
  match Chroma.chroma baseColor with
  | Some base => Some (paletteOf base name)
  | None => None
  end.

(** [generateTailwindConfig] of the server: the [css] branch writes a
    backslash followed by [n] (the source has ['\\n']). *)
Definition generateTailwindConfig : list namedPalette -> string -> string :=
  generateTailwindConfigWith (JSON.backslash ++ "n")%string.

Definition strategies (strategy : string)
  : option (Q -> list Chroma.color) :=
  let hsl hue s l := Chroma.of_hsl (Num hue) s l in
  if String.eqb strategy "complementary" then
    Some (fun hue => [hsl hue (8 # 10) (6 # 10);
                      hsl (hue + 180) (8 # 10) (6 # 10);
                      hsl (hue + 90) (7 # 10) (5 # 10)])
  else if String.eqb strategy "analogous" then
    Some (fun hue => [hsl hue (8 # 10) (6 # 10);
                      hsl (hue + 30) (8 # 10) (6 # 10);
                      hsl (hue - 30) (8 # 10) (6 # 10)])
  else if String.eqb strategy "monochromatic" then
    Some (fun hue => [hsl hue (8 # 10) (6 # 10);
                      hsl hue (6 # 10) (5 # 10);
                      hsl hue (9 # 10) (7 # 10)])
  else if String.eqb strategy "triadic" then
    Some (fun hue => [hsl hue (8 # 10) (6 # 10);
                      hsl (hue + 120) (8 # 10) (6 # 10);
                      hsl (hue + 240) (8 # 10) (6 # 10)])
  else None.

(** The [palettes] of the [generate_color_scheme] request: each seed is
    printed with [hex()] and handed to [generateTailwindPalette]. *)
Definition schemePalettes (strategy : string) (baseHue : Q)
  (colorNames : list string) : result (list (option namedPalette)) :=
  match strategies strategy with
  | Some seeds =>
      let baseColors := seeds baseHue in
      Return
        (Extension.mapi
           (fun (color : Chroma.color) index =>
              let name := Extension.paletteName colorNames index in
              generateTailwindPalette (Chroma.hex color) name)
           baseColors 0%nat)
  | None =>
      Throw ("Error executing generate_color_scheme: "
             ++ "strategies[strategy] is not a function")
  end.

(** HSL reading of a palette entry, for statements about hue and
    lightness of the colours a palette holds. *)
Definition entryHsl (p : namedPalette) (shade : string) : option Chroma.hsl :=
  match Obj.get (palette p) shade with
  | Some text => option_map Chroma.rgb2hsl (Chroma.chroma text)
  | None => None
  end.

(** Hue of a colour given in hexadecimal text. *)
Definition hueOf (text : string) : option number :=
  option_map (fun c => Chroma.h (Chroma.rgb2hsl c)) (Chroma.chroma text).

End McpServer.

(* ================================================================== *)
(** ** Gradient formatter: [generateTailwindGradient] ([extension.js]) *)

Module GradientFormat.

Import Gradient.

(** [JSON.stringify] on the values a gradient holds: strings, numbers,
    [undefined], arrays and objects. *)
#[local] Unset Elimination Schemes.
Inductive jvalue : Type :=
| VString (s : string)
| VNumber (n : number)
| VUndefined
| VArray (items : list jvalue)
| VObject (members : list (string * jvalue)).
#[local] Set Elimination Schemes.

(** What the formatter returns: a text, or (for the fallback format) an
    object with the fields [gradient], [stops] and [direction]. *)
Inductive output : Type :=
| Text (s : string)
| Detailed (gradient : string) (stops : list stop) (direction : string).

(** [direction.replace('to-', '')]: the first occurrence only. *)
Fixpoint replaceTo (s : string) : string :=
  match s with
  | EmptyString => EmptyString
  | String "t"%char (String "o"%char (String "-"%char rest)) => rest
  | String c rest => String c (replaceTo rest)
  end.

(** [`${v}`] for a string or [undefined]. *)
Definition valueText (v : value) : string :=
  match v with
  | Str s => s
  | Undefined => "undefined"
  end.

(** [stops.slice(1, -1)] *)
Definition interior (stops : list stop) : list stop := removelast (tl stops).

Section Printing.

(** The decimal text of a finite number ([Number::toString]) is a
    parameter of the formatter model. *)
Variable show : Q -> string.

Definition numberText (n : number) : string :=
  match n with
  | Num q => show q
  | NaN => "NaN"
  end.

(** SerializeJSONProperty: [None] is [undefined]; a member whose value is
    [undefined] is left out of an object and printed as [null] in an
    array; NaN prints as [null]. *)
Fixpoint serializeValue (gap indent : string) (v : jvalue) : option string :=
  match v with
  | VString s => Some (JSON.quote s)
  | VNumber (Num q) => Some (show q)
  | VNumber NaN => Some "null"
  | VUndefined => None
  | VArray items =>
      let stepback := indent in
      let indent := indent ++ gap in
      let partial :=
        map (fun x => match serializeValue gap indent x with
                      | Some t => t
                      | None => "null"
                      end) items in
      Some match partial with
           | [] => "[]"
           | _ =>
               if JSON.isEmpty gap
               then "[" ++ String.concat "," partial ++ "]"
               else "[" ++ JSON.LF ++ indent
                        ++ String.concat ("," ++ JSON.LF ++ indent) partial
                        ++ JSON.LF ++ stepback ++ "]"
           end
  | VObject members =>
      let stepback := indent in
      let indent := indent ++ gap in
      let partial :=
        flat_map (fun m : string * jvalue =>
                    let (k, x) := m in
                    match serializeValue gap indent x with
                    | Some t =>
                        [JSON.quote k ++ ":"
                           ++ (if JSON.isEmpty gap then "" else " ") ++ t]
                    | None => []
                    end) members in
      Some match partial with
           | [] => "{}"
           | _ =>
               if JSON.isEmpty gap
               then "{" ++ String.concat "," partial ++ "}"
               else "{" ++ JSON.LF ++ indent
                        ++ String.concat ("," ++ JSON.LF ++ indent) partial
                        ++ JSON.LF ++ stepback ++ "}"
           end
  end.

Definition stringifyValue (v : jvalue) (space : nat) : string :=
  match serializeValue (String.concat "" (repeat " " (Nat.min 10 space))) "" v with
  | Some t => t
  | None => "undefined"
  end.

Definition ofValue (v : value) : jvalue :=
  match v with
  | Str s => VString s
  | Undefined => VUndefined
  end.

Definition ofStop (s : stop) : jvalue :=
  VObject [("color", ofValue (color s)); ("position", VNumber (position s))].

(** The object [{ stops, direction }] built by [generateGradientStops]. *)
Definition ofGradient (stops : list stop) (direction : string) : jvalue :=
  VObject [("stops", VArray (map ofStop stops));
           ("direction", VString direction)].

(** [`${stop.color} ${stop.position}%`] *)
Definition stopString (s : stop) : string :=
  valueText (color s) ++ " " ++ numberText (position s) ++ "%".

Definition linearGradient (stops : list stop) (direction : string) : string :=
  "linear-gradient(" ++ replaceTo direction ++ ", "
    ++ String.concat ", " (map stopString stops) ++ ")".

(** [generateTailwindGradient].  In the [tailwind] branch [stops[0].color]
    on an empty list reads a property of [undefined] and throws (the
    message is the engine's). *)
Definition generateTailwindGradient (gradient : list stop * string)
  (format : string) : result output :=
  let (stops, direction) := gradient in
  if String.eqb format "css" then
    Return (Text ("background: " ++ linearGradient stops direction ++ ";"))
  else if String.eqb format "tailwind" then
    let directionClass := "bg-gradient-" ++ direction in
    match stops with
    | [] => Throw "Cannot read properties of undefined (reading 'color')"
    | first :: _ =>
        let fromColor := "from-[" ++ valueText (color first) ++ "]" in
        let toColor := "to-[" ++ valueText (color (last stops first)) ++ "]" in
        let classes := directionClass ++ " " ++ fromColor in
        let classes :=
          if (2 <? List.length stops)%nat
          then classes ++ " "
                 ++ String.concat " "
                      (map (fun s => "via-[" ++ valueText (color s) ++ "]")
                           (interior stops))
          else classes in
        Return (Text (classes ++ " " ++ toColor))
    end
  else if String.eqb format "json" then
    Return (Text (stringifyValue (ofGradient stops direction) 2))
  else
    Return (Detailed (linearGradient stops direction) stops direction).

End Printing.

(** A colour text that [hexToRgb] accepts. *)
Definition parseable (v : value) : Prop := hexToRgb v <> None.

(** [lo <= x <= hi] whichever of [a], [b] is the smaller. *)
Definition between (a b x : Z) : Prop := Z.min a b <= x <= Z.max a b.

End GradientFormat.

(* ================================================================== *)
(** ** The "generate palette" command ([extension.js]) *)

Module Command.

Import Config.

(** [basicPalette]: a fixed table around the base colour. *)
Definition basicPalette (baseColor : string) : Obj.t string :=
  [("50", "#f0f9ff"); ("100", "#e0f2fe"); ("200", "#bae6fd");
   ("300", "#7dd3fc"); ("400", "#38bdf8"); ("500", baseColor);
   ("600", "#0284c7"); ("700", "#0369a1"); ("800", "#075985");
   ("900", "#0c4a6e"); ("950", "#082f49")].

Definition shadesJson (shades : Obj.t string) : JSON.json :=
  JSON.JObject (map (fun s : string * string => (fst s, JSON.JString (snd s)))
                    shades).

(** [configText] of the command.  The [json] branch builds
    [{ [paletteName]: basicPalette }] with a computed key, which always
    creates an own property. *)
Definition configText (baseColor paletteName format : string) : string :=
  let table := basicPalette baseColor in
  if String.eqb format "css" then
    cssShades JSON.LF paletteName table (":root {" ++ JSON.LF) ++ "}"
  else if String.eqb format "js" then
    "module.exports = {" ++ JSON.LF
    ++ "  theme: {" ++ JSON.LF
    ++ "    extend: {" ++ JSON.LF
    ++ "      colors: {" ++ JSON.LF
    ++ "        " ++ paletteName ++ ": "
    ++ JSON.stringify (shadesJson table) 10 ++ JSON.LF
    ++ "      }" ++ JSON.LF
    ++ "    }" ++ JSON.LF
    ++ "  }" ++ JSON.LF
    ++ "}"
  else
    JSON.stringify (JSON.JObject [(paletteName, shadesJson table)]) 2.

(** The palette of the last entry of [palettes] named [n]. *)
Definition lastNamed (n : string) (palettes : list namedPalette)
  : option (Obj.t string) :=
  option_map palette
    (find (fun p => String.eqb (name p) n) (rev palettes)).

End Command.

(* ================================================================== *)
(** ** Enumeration order of objects *)

Module ObjFacts.

Import Obj.

Section Order.

Context {V : Type}.

Implicit Types (o : Obj.t V) (e : string * V) (k : string) (v : V).

Lemma arrayIndex_text k i : arrayIndex k = Some i -> toString10 i = k.
Proof.
  unfold arrayIndex. destruct k as [| c k']; [discriminate |].
  destruct (parseDecimal _ 0) as [n |]; [| discriminate].
  destruct (String.eqb (toString10 n) _) eqn:E; cbn; [| discriminate].
  destruct (n <=? 4294967294)%Z; [| discriminate].
  intros [= <-]. apply String.eqb_eq. exact E.
Qed.

Lemma arrayIndex_inj k1 k2 i :
  arrayIndex k1 = Some i -> arrayIndex k2 = Some i -> k1 = k2.
Proof.
  intros H1 H2. rewrite <- (arrayIndex_text _ _ H1). apply arrayIndex_text, H2.
Qed.

Lemma keyLt_asym e1 e2 : keyLt e1 e2 -> keyLt e2 e1 -> False.
Proof.
  unfold keyLt. destruct (arrayIndex (fst e1)), (arrayIndex (fst e2)); lia.
Qed.

Lemma keyLt_trans e1 e2 e3 : keyLt e1 e2 -> keyLt e2 e3 -> keyLt e1 e3.
Proof.
  unfold keyLt.
  destruct (arrayIndex (fst e1)), (arrayIndex (fst e2)), (arrayIndex (fst e3));
    try lia; try tauto.
Qed.

Lemma has_insertIndex i k v o k' :
  has k' (insertIndex i k v o) = String.eqb k k' || has k' o.
Proof.
  induction o as [| [k0 v0] o IH]; cbn; [reflexivity |].
  destruct (arrayIndex k0) as [j |]; [| reflexivity].
  destruct (i <? j)%Z; [reflexivity |].
  cbn. rewrite IH.
  destruct (String.eqb k0 k'), (String.eqb k k'); reflexivity.
Qed.

Lemma insertIndex_perm i k v o : Permutation (insertIndex i k v o) ((k, v) :: o).
Proof.
  induction o as [| [k0 v0] o IH]; cbn; [reflexivity |].
  destruct (arrayIndex k0) as [j |]; [| reflexivity].
  destruct (i <? j)%Z; [reflexivity |].
  rewrite IH. apply perm_swap.
Qed.

Lemma insertIndex_ascending i k v o :
  arrayIndex k = Some i -> indexed o -> has k o = false ->
  StronglySorted keyLt o -> StronglySorted keyLt (insertIndex i k v o).
Proof.
  intros Hk Hidx Hfresh Hsorted.
  induction Hsorted as [| [k0 v0] o Hs IH Hall]; cbn.
  - repeat constructor.
  - inversion Hidx as [| ? ? [j Hj] Hidx']; subst. cbn in Hj, Hfresh.
    apply orb_false_iff in Hfresh. destruct Hfresh as [Hne Hfresh].
    rewrite Hj. destruct (Z.ltb_spec i j) as [Hlt | Hge].
    + constructor; [constructor; assumption |].
      assert (H0 : keyLt (k, v) (k0, v0)).
      { unfold keyLt. cbn. rewrite Hk, Hj. exact Hlt. }
      constructor; [exact H0 |].
      revert Hall. apply Forall_impl. intros e. apply keyLt_trans, H0.
    + assert (Hij : (j < i)%Z).
      { destruct (Z.eq_dec i j) as [-> | Hn]; [| lia].
        apply String.eqb_neq in Hne. elim Hne.
        apply (arrayIndex_inj _ _ j); assumption. }
      constructor; [apply IH; assumption |].
      apply (Permutation_Forall (Permutation_sym (insertIndex_perm i k v o))).
      constructor; [| exact Hall].
      unfold keyLt. cbn. rewrite Hk, Hj. exact Hij.
Qed.

Lemma set_fresh o k v i :
  has k o = false -> arrayIndex k = Some i -> set o k v = insertIndex i k v o.
Proof. intros H1 H2. unfold set. rewrite H1, H2. reflexivity. Qed.

(** Assigning fresh array-index keys keeps the entries in ascending key
    order, whatever the order of the assignments. *)
Lemma assign_ascending (bindings : list (string * V)) o :
  indexed o -> StronglySorted keyLt o ->
  indexed bindings -> NoDup (map fst bindings) ->
  (forall e, In e bindings -> has (fst e) o = false) ->
  let o' := fold_left (fun o e => set o (fst e) (snd e)) bindings o in
  StronglySorted keyLt o' /\ Permutation o' (o ++ bindings).
Proof.
  revert o. induction bindings as [| [k v] bindings IH];
    intros o Hio Hso Hib Hnd Hfresh; cbn [fold_left].
  - rewrite app_nil_r. split; [exact Hso | reflexivity].
  - inversion Hib as [| ? ? [i Hi] Hib']; subst. cbn in Hi.
    inversion Hnd as [| ? ? Hnotin Hnd']; subst.
    assert (Hk : has k o = false) by (apply (Hfresh (k, v)); left; reflexivity).
    cbn [fst snd]. rewrite (set_fresh o k v i Hk Hi).
    destruct (IH (insertIndex i k v o)) as [Hs Hp].
    + apply (Permutation_Forall (Permutation_sym (insertIndex_perm i k v o))).
      constructor; [exists i; exact Hi | exact Hio].
    + apply insertIndex_ascending; assumption.
    + exact Hib'.
    + exact Hnd'.
    + intros e He. rewrite has_insertIndex.
      rewrite (Hfresh e (or_intror He)), orb_false_r.
      apply String.eqb_neq. intros ->. apply Hnotin. apply in_map, He.
    + split; [exact Hs |].
      rewrite Hp, (insertIndex_perm i k v o). cbn [app].
      apply Permutation_middle.
Qed.

Lemma ascending_unique (l1 l2 : list (string * V)) :
  StronglySorted keyLt l1 -> StronglySorted keyLt l2 ->
  Permutation l1 l2 -> l1 = l2.
Proof.
  intros H1. revert l2.
  induction H1 as [| a l1 Hs1 IH Ha]; intros l2 H2 Hp.
  - apply Permutation_nil in Hp. subst. reflexivity.
  - destruct H2 as [| b l2 Hs2 Hb].
    + apply Permutation_sym, Permutation_nil in Hp. discriminate.
    + assert (Hab : a = b).
      { assert (Hin : In a (b :: l2)).
        { apply (Permutation_in _ Hp). left. reflexivity. }
        destruct Hin as [E | Hin]; [symmetry; exact E |].
        assert (Hin' : In b (a :: l1)).
        { apply (Permutation_in _ (Permutation_sym Hp)). left. reflexivity. }
        destruct Hin' as [E | Hin']; [exact E |].
        rewrite Forall_forall in Ha, Hb.
        elim (keyLt_asym a b); auto. }
      subst b. f_equal. apply IH; [exact Hs2 |].
      apply Permutation_cons_inv in Hp. exact Hp.
Qed.

(** With distinct array-index keys (such as the shade keys), the object
    built by a list of assignments does not depend on their order: its
    entries are enumerated by ascending key. *)
Lemma assignAll_order_independent (bindings1 bindings2 : list (string * V)) :
  indexed bindings1 -> NoDup (map fst bindings1) ->
  Permutation bindings1 bindings2 ->
  assignAll bindings1 = assignAll bindings2.
Proof.
  intros Hidx Hnd Hp. unfold assignAll.
  destruct (assign_ascending bindings1 []) as [Hs1 Hp1];
    try solve [constructor | assumption | reflexivity].
  destruct (assign_ascending bindings2 []) as [Hs2 Hp2];
    try solve [constructor | reflexivity].
  - apply (Permutation_Forall Hp Hidx).
  - apply (Permutation_NoDup (Permutation_map fst Hp) Hnd).
  - cbn zeta in *. cbn [app] in Hp1, Hp2.
    apply ascending_unique; [exact Hs1 | exact Hs2 |].
    rewrite Hp1, Hp2. exact Hp.
Qed.

End Order.

End ObjFacts.

(* ================================================================== *)
(** ** Properties of the gradient engine *)

Module GradientFacts.

Import Gradient.
Local Open Scope Q_scope.

Lemma Math_round_step (x y : Q) :
  x + 1 <= y -> (Math_round x < Math_round y)%Z.
Proof.
  intros H. unfold Math_round.
  pose proof (Qfloor_le (x + (1 # 2))) as Hx.
  assert (Hle : inject_Z (Qfloor (x + (1 # 2)) + 1) <= y + (1 # 2)).
  { rewrite inject_Z_plus. change (inject_Z 1) with 1. lra. }
  apply Qfloor_resp_le in Hle. rewrite Qfloor_Z in Hle. lia.
Qed.

Lemma Math_round_integer (x : Q) (k : Z) :
  x == inject_Z k -> Math_round x = k.
Proof.
  intros H. unfold Math_round.
  assert (Hlo : inject_Z k <= x + (1 # 2)) by lra.
  assert (Hhi : x + (1 # 2) < inject_Z (k + 1)).
  { rewrite inject_Z_plus. change (inject_Z 1) with 1. lra. }
  apply Qfloor_resp_le in Hlo. rewrite Qfloor_Z in Hlo.
  pose proof (Qfloor_le (x + (1 # 2))) as Hfl.
  assert (Hlt : inject_Z (Qfloor (x + (1 # 2))) < inject_Z (k + 1)) by lra.
  rewrite <- Zlt_Qlt in Hlt. lia.
Qed.

Lemma positive_denominator (steps : Z) :
  (2 <= steps)%Z -> 0 < inject_Z (steps - 1).
Proof.
  intros H. change 0 with (inject_Z 0). rewrite <- Zlt_Qlt. lia.
Qed.

Lemma stopAt_position (colors : list string) (steps i : Z) :
  (2 <= steps)%Z ->
  position (stopAt colors steps i)
  = Num (inject_Z (Math_round (scaled steps i)) / 100).
Proof.
  intros H. unfold stopAt, scaled.
  destruct (Z.eqb_spec steps 1) as [E | _]; [lia | reflexivity].
Qed.

Lemma stopAt_color_at_seed (colors : list string) (steps i k : Z) :
  (2 <= steps)%Z ->
  inject_Z i / inject_Z (steps - 1)
    * inject_Z (Z.of_nat (List.length colors) - 1) == inject_Z k ->
  color (stopAt colors steps i) = index colors k.
Proof.
  intros H Hk. unfold stopAt.
  destruct (Z.eqb_spec steps 1) as [E | _]; [lia |].
  cbv zeta. unfold Math_floor, Math_ceil. cbn [color].
  rewrite (Qfloor_comp _ _ Hk), (Qceiling_comp _ _ Hk).
  rewrite Qfloor_Z, Qceiling_Z, Z.eqb_refl. reflexivity.
Qed.

Lemma scaled_first (steps : Z) :
  (2 <= steps)%Z -> scaled steps 0 == inject_Z 0.
Proof.
  intros H. pose proof (positive_denominator steps H) as Hd.
  unfold scaled. change (inject_Z 0) with 0. field. lra.
Qed.

Lemma scaled_last (steps : Z) :
  (2 <= steps)%Z -> scaled steps (steps - 1) == inject_Z 10000.
Proof.
  intros H. pose proof (positive_denominator steps H) as Hd.
  unfold scaled. change (inject_Z 10000) with 10000. field. lra.
Qed.

Lemma scaled_gap (steps i j : Z) :
  (2 <= steps <= 50)%Z -> (i < j)%Z -> scaled steps i + 1 <= scaled steps j.
Proof.
  intros H Hij. pose proof (positive_denominator steps (proj1 H)) as Hd.
  assert (Hn : inject_Z (steps - 1) <= 49).
  { change 49 with (inject_Z 49). rewrite <- Zle_Qle. lia. }
  assert (Hs : inject_Z i + 1 <= inject_Z j).
  { change 1 with (inject_Z 1). rewrite <- inject_Z_plus, <- Zle_Qle. lia. }
  apply (Qmult_le_r _ _ (inject_Z (steps - 1)) Hd).
  assert (E1 : (scaled steps i + 1) * inject_Z (steps - 1)
               == inject_Z i * 10000 + inject_Z (steps - 1)).
  { unfold scaled. field. lra. }
  assert (E2 : scaled steps j * inject_Z (steps - 1) == inject_Z j * 10000).
  { unfold scaled. field. lra. }
  rewrite E1, E2. lra.
Qed.

Lemma nth_error_last_cons {A} (l : list A) (a d : A) :
  nth_error (a :: l) (List.length l) = Some (last (a :: l) d).
Proof.
  revert a. induction l as [| a' l' IH]; intros a; [reflexivity |].
  cbn [List.length nth_error]. rewrite IH. reflexivity.
Qed.

Lemma nth_error_last {A} (l : list A) (d : A) :
  l <> [] -> nth_error l (List.length l - 1) = Some (last l d).
Proof.
  destruct l as [| a l']; intros Hne; [congruence |].
  cbn [List.length]. rewrite Nat.sub_1_r. cbn [Nat.pred].
  apply nth_error_last_cons.
Qed.

Lemma index_last (colors : list string) :
  colors <> [] ->
  index colors (Z.of_nat (List.length colors) - 1) = Str (last colors ""%string).
Proof.
  intros Hne. unfold index.
  assert (Hlen : (List.length colors <> 0)%nat) by (destruct colors; simpl; congruence).
  destruct (Z.ltb_spec (Z.of_nat (List.length colors) - 1) 0) as [Hneg | _]; [lia |].
  replace (Z.to_nat (Z.of_nat (List.length colors) - 1))
    with (List.length colors - 1)%nat by lia.
  rewrite (nth_error_last colors ""%string Hne). reflexivity.
Qed.

Lemma nth_error_stops (colors : list string) (steps : Z) (k : nat) :
  (Z.of_nat k < steps)%Z ->
  nth_error (map (stopAt colors steps) (loopIndices steps)) k
  = Some (stopAt colors steps (Z.of_nat k)).
Proof.
  intros Hk. unfold loopIndices. rewrite !nth_error_map, nth_error_seq.
  destruct (Nat.ltb_spec k (Z.to_nat steps)) as [_ | Hge]; [reflexivity | lia].
Qed.

Lemma nth_error_stops_inv (colors : list string) (steps : Z) (k : nat) (s : stop) :
  nth_error (map (stopAt colors steps) (loopIndices steps)) k = Some s ->
  (Z.of_nat k < steps)%Z /\ s = stopAt colors steps (Z.of_nat k).
Proof.
  unfold loopIndices. rewrite !nth_error_map, nth_error_seq.
  destruct (Nat.ltb_spec k (Z.to_nat steps)) as [Hlt | Hge]; cbn; [| discriminate].
  intros [= <-]. split; [lia | reflexivity].
Qed.

Lemma length_stops (colors : list string) (steps : Z) :
  (0 <= steps)%Z ->
  Z.of_nat (List.length (map (stopAt colors steps) (loopIndices steps))) = steps.
Proof.
  intros H. unfold loopIndices. rewrite !length_map, length_seq. lia.
Qed.

(** C3.  With at least two colours and a step count in [2,50],
    [generateGradientStops] returns exactly [steps] stops; the first stop
    carries the first input colour unchanged at position 0, the last stop
    carries the last input colour unchanged at position 100, and the
    positions strictly increase along the list. *)
Theorem generateGradientStops_endpoints_and_positions
  (colors : list string) (steps : Z) (direction : string) :
  (2 <= List.length colors)%nat ->
  (2 <= steps <= 50)%Z ->
  exists stops first final,
    generateGradientStops colors steps direction = Return (stops, direction)
    /\ Z.of_nat (List.length stops) = steps
    /\ nth_error stops 0 = Some first
    /\ nth_error stops (List.length stops - 1) = Some final
    /\ color first = Str (hd ""%string colors)
    /\ color final = Str (last colors ""%string)
    /\ num_eq (position first) (Num 0)
    /\ num_eq (position final) (Num 100)
    /\ strictlyIncreasing (map position stops).
Proof.
  intros Hlen Hsteps.
  assert (H2 : (2 <= steps)%Z) by lia.
  pose proof (positive_denominator steps H2) as Hd.
  pose proof (length_stops colors steps ltac:(lia)) as Hcount.
  exists (map (stopAt colors steps) (loopIndices steps)),
         (stopAt colors steps 0), (stopAt colors steps (steps - 1)).
  repeat split.
  - unfold generateGradientStops.
    destruct (Z.ltb_spec (Z.of_nat (List.length colors)) 2); [lia | reflexivity].
  - exact Hcount.
  - apply (nth_error_stops colors steps 0). lia.
  - set (k := (List.length (map (stopAt colors steps) (loopIndices steps)) - 1)%nat).
    replace (steps - 1)%Z with (Z.of_nat k) by lia.
    apply nth_error_stops. lia.
  - rewrite (stopAt_color_at_seed colors steps 0 0 H2).
    + destruct colors; [simpl in Hlen; lia | reflexivity].
    + change (inject_Z 0) with 0. field. lra.
  - rewrite (stopAt_color_at_seed colors steps (steps - 1)
               (Z.of_nat (List.length colors) - 1) H2).
    + apply index_last. destruct colors; [simpl in Hlen; lia | discriminate].
    + field. lra.
  - rewrite stopAt_position by exact H2.
    rewrite (Math_round_integer _ 0 (scaled_first steps H2)). reflexivity.
  - rewrite stopAt_position by exact H2.
    rewrite (Math_round_integer _ 10000 (scaled_last steps H2)). reflexivity.
  - intros i j x y Hij Hi Hj.
    rewrite nth_error_map in Hi, Hj.
    destruct (nth_error _ i) as [si |] eqn:Ei; [| discriminate].
    destruct (nth_error _ j) as [sj |] eqn:Ej; [| discriminate].
    apply nth_error_stops_inv in Ei, Ej.
    destruct Ei as [_ ->], Ej as [_ ->].
    cbn in Hi, Hj. injection Hi as <-. injection Hj as <-.
    rewrite !stopAt_position by exact H2. unfold num_lt.
    assert (Hlt : (Math_round (scaled steps (Z.of_nat i))
                   < Math_round (scaled steps (Z.of_nat j)))%Z).
    { apply Math_round_step, scaled_gap; [exact Hsteps | lia]. }
    rewrite Zlt_Qlt in Hlt.
    apply Qmult_lt_r; [reflexivity | exact Hlt].
Qed.

Lemma generateGradientStops_endpoints_and_positions_witness :
  exists stops first final,
    generateGradientStops ["#ff0000"; "#00ff00"; "#0000ff"]%string 5 "to-r"
    = Return (stops, "to-r"%string)
    /\ Z.of_nat (List.length stops) = 5%Z
    /\ nth_error stops 0 = Some first
    /\ nth_error stops (List.length stops - 1) = Some final
    /\ color first = Str "#ff0000"
    /\ color final = Str "#0000ff"
    /\ num_eq (position first) (Num 0)
    /\ num_eq (position final) (Num 100)
    /\ strictlyIncreasing (map position stops).
Proof.
  apply (generateGradientStops_endpoints_and_positions
           ["#ff0000"; "#00ff00"; "#0000ff"]%string 5 "to-r").
  - simpl. lia.
  - lia.
Defined.


(** C4.  Red to blue in three steps: the stops sit at positions 0, 50 and
    100, the outer stops carry the inputs unchanged, and the middle stop
    is [#800080], each of its channels being
    [round(lower + factor * (upper - lower))] at factor 1/2. *)
Theorem generateGradientStops_red_blue_midpoint :
  exists p0 p1 p2,
    generateGradientStops ["#FF0000"; "#0000FF"]%string 3 "to-r"
    = Return ([mkStop (Str "#FF0000") (Num p0);
               mkStop (Str "#800080") (Num p1);
               mkStop (Str "#0000FF") (Num p2)], "to-r"%string)
    /\ p0 == 0 /\ p1 == 50 /\ p2 == 100
    /\ interpolateColors (Str "#FF0000") (Str "#0000FF") (Num (1 # 2))
       = Str "#800080"
    /\ rgbToHex (Math_round (255 + (1 # 2) * (0 - 255)))
                (Math_round (0 + (1 # 2) * (0 - 0)))
                (Math_round (0 + (1 # 2) * (255 - 0)))
       = "#800080"%string.
Proof.
  eexists _, _, _. split; [vm_compute; reflexivity |].
  repeat split; vm_compute; reflexivity.
Qed.

(** C5.  With fewer than two colours [generateGradientStops] throws the
    "at least 2 colors" error and returns no stop list. *)
Theorem generateGradientStops_insufficient_colors
  (colors : list string) (steps : Z) (direction : string) :
  (List.length colors < 2)%nat ->
  generateGradientStops colors steps direction
  = Throw "At least 2 colors are required for gradient generation"
  /\ forall stops, generateGradientStops colors steps direction <> Return stops.
Proof.
  intros Hlen. unfold generateGradientStops.
  destruct (Z.ltb_spec (Z.of_nat (List.length colors)) 2) as [_ | Hge]; [| lia].
  split; [reflexivity | discriminate].
Qed.

Lemma generateGradientStops_insufficient_colors_witness :
  generateGradientStops ["#FF0000"]%string 10 "to-r"
  = Throw "At least 2 colors are required for gradient generation"
  /\ forall stops,
       generateGradientStops ["#FF0000"]%string 10 "to-r" <> Return stops.
Proof.
  apply (generateGradientStops_insufficient_colors ["#FF0000"]%string 10 "to-r").
  simpl. lia.
Defined.

Lemma interpolateColors_fallback (color1 color2 : value) (factor : number) :
  hexToRgb color1 = None \/ hexToRgb color2 = None ->
  interpolateColors color1 color2 factor = color1.
Proof.
  intros [H | H]; unfold interpolateColors; rewrite H;
    [| destruct (hexToRgb color1)]; reflexivity.
Qed.

Lemma colorIndex_range (i n m : Z) :
  (0 <= i <= n)%Z -> (0 < n)%Z -> (0 <= m)%Z ->
  0 <= inject_Z i / inject_Z n * inject_Z m <= inject_Z m.
Proof.
  intros Hi Hn Hm.
  assert (Hn' : 0 < inject_Z n) by (change 0 with (inject_Z 0); rewrite <- Zlt_Qlt; lia).
  assert (Hm' : 0 <= inject_Z m) by (change 0 with (inject_Z 0); rewrite <- Zle_Qle; lia).
  assert (Hi0 : 0 <= inject_Z i) by (change 0 with (inject_Z 0); rewrite <- Zle_Qle; lia).
  assert (Hin : inject_Z i <= inject_Z n) by (rewrite <- Zle_Qle; lia).
  assert (Ht0 : 0 <= inject_Z i / inject_Z n).
  { apply Qle_shift_div_l; [exact Hn' | lra]. }
  assert (Ht1 : inject_Z i / inject_Z n <= 1).
  { apply Qle_shift_div_r; [exact Hn' | lra]. }
  set (t := inject_Z i / inject_Z n) in *. nra.
Qed.

Lemma index_in_range (colors : list string) (k : Z) :
  (0 <= k < Z.of_nat (List.length colors))%Z ->
  exists c, In c colors /\ index colors k = Str c.
Proof.
  intros Hk. unfold index.
  destruct (Z.ltb_spec k 0) as [Hneg | _]; [lia |].
  destruct (nth_error colors (Z.to_nat k)) as [c |] eqn:E.
  - exists c. split; [eapply nth_error_In; exact E | reflexivity].
  - apply nth_error_None in E. lia.
Qed.

Lemma stopAt_unparseable (colors : list string) (steps i : Z) :
  Forall (fun c => hexToRgbStr c = None) colors ->
  (2 <= List.length colors)%nat -> (2 <= steps)%Z -> (0 <= i < steps)%Z ->
  exists c, In c colors /\ color (stopAt colors steps i) = Str c.
Proof.
  intros Hbad Hlen Hsteps Hi. unfold stopAt.
  destruct (Z.eqb_spec steps 1) as [E | _]; [lia |].
  cbv zeta. cbn [color].
  set (x := inject_Z i / inject_Z (steps - 1)
            * inject_Z (Z.of_nat (List.length colors) - 1)).
  assert (Hx : 0 <= x <= inject_Z (Z.of_nat (List.length colors) - 1)).
  { apply colorIndex_range; lia. }
  assert (Hfloor : (0 <= Math_floor x < Z.of_nat (List.length colors))%Z).
  { unfold Math_floor. split.
    - rewrite <- (Qfloor_Z 0). apply Qfloor_resp_le. exact (proj1 Hx).
    - pose proof (Qfloor_resp_le _ _ (proj2 Hx)) as Hle.
      rewrite Qfloor_Z in Hle. lia. }
  destruct (index_in_range colors (Math_floor x) Hfloor) as [c [Hin Hc]].
  exists c. split; [exact Hin |].
  destruct (Math_floor x =? Math_ceil x)%Z; [exact Hc |].
  rewrite interpolateColors_fallback; [exact Hc |].
  left. rewrite Hc. cbn. rewrite Forall_forall in Hbad. auto.
Qed.

(** C10.  [interpolateColors] raises no colour-format error: when either
    colour fails the six-digit parse it returns its first argument
    unchanged; a gradient over unparseable colour strings therefore still
    returns [steps] stops, each carrying one of the input strings. *)
Theorem interpolateColors_silent_fallback
  (color1 color2 : value) (factor : number)
  (colors : list string) (steps : Z) (direction : string) :
  hexToRgb color1 = None \/ hexToRgb color2 = None ->
  Forall (fun c => hexToRgbStr c = None) colors ->
  (2 <= List.length colors)%nat ->
  (2 <= steps)%Z ->
  interpolateColors color1 color2 factor = color1
  /\ exists stops,
       generateGradientStops colors steps direction = Return (stops, direction)
       /\ Z.of_nat (List.length stops) = steps
       /\ Forall (fun s => exists c, In c colors /\ color s = Str c) stops.
Proof.
  intros Hnull Hbad Hlen Hsteps. split.
  - apply interpolateColors_fallback, Hnull.
  - exists (map (stopAt colors steps) (loopIndices steps)). repeat split.
    + unfold generateGradientStops.
      destruct (Z.ltb_spec (Z.of_nat (List.length colors)) 2); [lia | reflexivity].
    + apply length_stops. lia.
    + apply Forall_forall. intros s Hs.
      apply In_nth_error in Hs. destruct Hs as [k Hk].
      apply nth_error_stops_inv in Hk. destruct Hk as [Hk ->].
      apply stopAt_unparseable; try assumption. lia.
Qed.

Lemma interpolateColors_silent_fallback_witness :
  interpolateColors (Str "red") (Str "#0000ff") (Num (1 # 2)) = Str "red"
  /\ exists stops,
       generateGradientStops ["red"; "blue"]%string 3 "to-r"
       = Return (stops, "to-r"%string)
       /\ Z.of_nat (List.length stops) = 3%Z
       /\ Forall (fun s => exists c, In c ["red"; "blue"]%string /\ color s = Str c)
                 stops.
Proof.
  apply (interpolateColors_silent_fallback
           (Str "red") (Str "#0000ff") (Num (1 # 2))
           ["red"; "blue"]%string 3 "to-r").
  - left. reflexivity.
  - repeat constructor.
  - simpl. lia.
  - lia.
Defined.

End GradientFacts.

(* ================================================================== *)
(** ** Properties of the palette derivations *)

Module PaletteFacts.

Import Config.
Local Open Scope Q_scope.

(** The shade keys are created in ascending order, one entry each. *)
Lemma extension_palette_entries (baseColor name : string) :
  palette (Extension.generateTailwindPalette baseColor name)
  = map (fun shade : Z =>
           (toString10 shade,
            Extension.shadeColor baseColor
              (Extension.parseInt16 (Extension.replaceHash baseColor)) shade))
        Extension.TAILWIND_SHADES.
Proof.
  unfold Extension.generateTailwindPalette.
  generalize (Extension.shadeColor baseColor
                (Extension.parseInt16 (Extension.replaceHash baseColor))).
  intros f. vm_compute. reflexivity.
Qed.

(** In-process derivation: shade 500 is the input text itself. *)
Lemma extension_palette_500 (baseColor name : string) :
  Obj.get (palette (Extension.generateTailwindPalette baseColor name)) "500"
  = Some baseColor.
Proof.
  rewrite extension_palette_entries. reflexivity.
Qed.

Lemma server_palette_entries (base : Chroma.color) (name : string) :
  palette (McpServer.paletteOf base name)
  = map (fun shade : Z => (toString10 shade, McpServer.shadeColor base shade))
        McpServer.TAILWIND_SHADES.
Proof.
  unfold McpServer.paletteOf.
  generalize (McpServer.shadeColor base). intros f. vm_compute. reflexivity.
Qed.

(** Server derivation on a saturated colour: shade 500 prints the base. *)
Lemma server_palette_500_saturated :
  option_map (fun p => Obj.get (palette p) "500")
             (McpServer.generateTailwindPalette "#3b82f6" "primary")
  = Some (Some "#3b82f6"%string).
Proof. vm_compute. reflexivity. Qed.

(** C1.  The server derivation recomputes shade 500 from the HSL form with
    the saturation raised to at least 1/10: for the base [#808182], whose
    saturation is 1/126, shade 500 is [#74818e] and not the base.  (The
    in-process derivation keeps the base: [extension_palette_500].) *)
Theorem server_palette_500_low_saturation :
  let base := Chroma.mkColor 128 129 130 in
  Chroma.chroma "#808182" = Some base
  /\ Chroma.s (Chroma.rgb2hsl base) == 1 # 126
  /\ Chroma.s (McpServer.shadeHsl (Chroma.rgb2hsl base) 500) == 1 # 10
  /\ option_map (fun p => Obj.get (palette p) "500")
                (McpServer.generateTailwindPalette "#808182" "primary")
     = Some (Some "#74818e"%string)
  /\ option_map (fun p => Obj.get (palette p) "500")
                (McpServer.generateTailwindPalette "#808080" "primary")
     = Some (Some "#737373"%string).
Proof. repeat split; vm_compute; reflexivity. Qed.

(* ---------------------------------------------------------------- *)

Lemma inject_Z_lt (x y : Z) : (x < y)%Z -> inject_Z x < inject_Z y.
Proof. rewrite <- Zlt_Qlt. trivial. Qed.

Lemma inject_Z_le (x y : Z) : (x <= y)%Z -> inject_Z x <= inject_Z y.
Proof. rewrite <- Zle_Qle. trivial. Qed.









(* ---------------------------------------------------------------- *)

(** Server scheme, triadic at hue 0: three palettes named as asked, whose
    shade-500 colours have hues 0, 120 and 240 degrees. *)
Lemma server_scheme_triadic_hues :
  exists p1 p2 p3 h1 h2 h3,
    McpServer.schemePalettes "triadic" 0 ["a"; "b"; "c"]%string
    = Return [Some p1; Some p2; Some p3]
    /\ (name p1, name p2, name p3) = ("a", "b", "c")%string
    /\ option_map Chroma.h (McpServer.entryHsl p1 "500") = Some (Num h1)
    /\ option_map Chroma.h (McpServer.entryHsl p2 "500") = Some (Num h2)
    /\ option_map Chroma.h (McpServer.entryHsl p3 "500") = Some (Num h3)
    /\ h1 == 0 /\ h2 == 120 /\ h3 == 240.
Proof.
  eexists _, _, _, _, _, _.
  split; [vm_compute; reflexivity |].
  repeat split; vm_compute; reflexivity.
Qed.

Lemma mapi_Forall {A B} (P : B -> Prop) (f : A -> nat -> B) (l : list A) (i : nat) :
  (forall x k, P (f x k)) -> Forall P (Extension.mapi f l i).
Proof.
  intros H. revert i. induction l as [| x l IH]; intros i; cbn; constructor; auto.
Qed.

(** In-process scheme: whatever the strategy, the hue and the names, every
    palette is derived from the constant [#3B82F6]. *)
Lemma extension_scheme_constant_base
  (strategy : string) (baseHue : Q) (colorNames : list string)
  (palettes : list namedPalette) :
  Extension.schemePalettes strategy baseHue colorNames = Return palettes ->
  Forall (fun p => Obj.get (palette p) "500" = Some "#3B82F6"%string) palettes.
Proof.
  unfold Extension.schemePalettes.
  destruct (Extension.strategies strategy) as [seeds |]; [| discriminate].
  intros [= <-]. apply mapi_Forall. intros x k. apply extension_palette_500.
Qed.

(** C6.  The in-process scheme tool, asked for a triadic scheme at hue 0
    with names a, b, c, returns three palettes whose shade-500 colour is
    [#3B82F6] each time, of hue 217.2 degrees: the hues 0, 120 and 240 are
    computed and then dropped.  (The server does feed them to the palette
    derivation: [server_scheme_triadic_hues].) *)
Theorem extension_scheme_triadic_drops_hues :
  exists p1 p2 p3 hue,
    Extension.schemePalettes "triadic" 0 ["a"; "b"; "c"]%string
    = Return [p1; p2; p3]
    /\ (name p1, name p2, name p3) = ("a", "b", "c")%string
    /\ Obj.get (palette p1) "500" = Some "#3B82F6"%string
    /\ Obj.get (palette p2) "500" = Some "#3B82F6"%string
    /\ Obj.get (palette p3) "500" = Some "#3B82F6"%string
    /\ McpServer.hueOf "#3B82F6" = Some (Num hue)
    /\ 217 < hue < 218.
Proof.
  eexists _, _, _, _.
  split; [vm_compute; reflexivity |].
  repeat split; vm_compute; reflexivity.
Qed.

(** C9.  The two derivations disagree on a valid base colour: for
    [#3b82f6] the in-process arithmetic gives [#0000ff] at shade 50 and
    the HSL derivation of the server gives [#eff1f6]. *)
Theorem palette_derivations_differ :
  exists baseColor name server,
    Gradient.hexToRgbStr baseColor <> None
    /\ McpServer.generateTailwindPalette baseColor name = Some server
    /\ Obj.get (palette (Extension.generateTailwindPalette baseColor name)) "50"
       = Some "#0000ff"%string
    /\ Obj.get (palette server) "50" = Some "#eff1f6"%string
    /\ palette server
       <> palette (Extension.generateTailwindPalette baseColor name).
Proof.
  exists "#3b82f6"%string, "primary"%string.
  eexists. split; [vm_compute; discriminate |].
  split; [vm_compute; reflexivity |].
  repeat split; try (vm_compute; reflexivity).
  vm_compute. discriminate.
Qed.

End PaletteFacts.

(* ================================================================== *)
(** ** Properties of the formatter *)

Module ConfigFacts.

Import Config.

Lemma append_assoc (a b c : string) : (a ++ b) ++ c = a ++ (b ++ c).
Proof. induction a as [| x a IH]; cbn; [| rewrite IH]; reflexivity. Qed.

Lemma append_nil_r (a : string) : a ++ "" = a.
Proof. induction a as [| x a IH]; cbn; [| rewrite IH]; reflexivity. Qed.

Lemma join_app (l1 l2 : list string) : join (l1 ++ l2) = join l1 ++ join l2.
Proof.
  unfold join. induction l1 as [| x l1 IH]; cbn; [reflexivity |].
  rewrite IH, append_assoc. reflexivity.
Qed.

Lemma cssShades_join (nl colorName : string) (shades : Obj.t string) (css : string) :
  cssShades nl colorName shades css
  = css ++ join (map (fun s => cssLine nl colorName (fst s) (snd s)) shades).
Proof.
  unfold cssShades, join. revert css.
  induction shades as [| e shades IH]; intros css; cbn.
  - symmetry. apply append_nil_r.
  - rewrite IH, append_assoc. reflexivity.
Qed.

Lemma cssLines_cons (nl : string) (e : string * Obj.t string)
  (colors : Obj.t (Obj.t string)) :
  cssLines nl (e :: colors)
  = (map (fun s => cssLine nl (fst e) (fst s) (snd s)) (snd e)
     ++ cssLines nl colors)%list.
Proof. reflexivity. Qed.

Lemma cssColors_join (nl : string) (colors : Obj.t (Obj.t string)) (css : string) :
  cssColors nl colors css = css ++ join (cssLines nl colors).
Proof.
  unfold cssColors. revert css.
  induction colors as [| e colors IH]; intros css.
  - cbn. symmetry. apply append_nil_r.
  - cbn [fold_left]. rewrite IH, cssLines_cons, join_app, cssShades_join.
    apply append_assoc.
Qed.

(** The [css] branch writes the opening text, then one text
    [  --color-<name>-<shade>: <hex>;] followed by the line break per entry
    of the collected object, in enumeration order, then the closing
    brace. *)
Lemma css_one_text_per_entry (nl : string) (palettes : list namedPalette) :
  generateTailwindConfigWith nl palettes "css"
  = (":root {" ++ nl) ++ join (cssLines nl (collect palettes)) ++ "}"
  /\ List.length (cssLines nl (collect palettes))
     = list_sum (map (fun e => List.length (snd e)) (collect palettes)).
Proof.
  split.
  - unfold generateTailwindConfigWith. cbn [String.eqb Ascii.eqb Bool.eqb].
    rewrite cssColors_join, append_assoc. reflexivity.
  - induction (collect palettes) as [| e colors IH]; [reflexivity |].
    rewrite cssLines_cons, length_app, length_map, IH. reflexivity.
Qed.

Lemma hasLF_app (a b : string) : hasLF (a ++ b) = hasLF a || hasLF b.
Proof.
  induction a as [| x a IH]; cbn; [reflexivity |].
  rewrite IH, orb_assoc. reflexivity.
Qed.

Lemma lines_nonempty (s : string) : lines s <> [].
Proof.
  induction s as [| c s IH]; cbn; [discriminate |].
  destruct (Ascii.eqb c "010"); [discriminate |].
  destruct (lines s); [congruence | discriminate].
Qed.

Lemma lines_app_LF (a b : string) :
  hasLF a = false -> lines (a ++ JSON.LF ++ b) = a :: lines b.
Proof.
  induction a as [| x a IH]; intros H; [reflexivity |].
  cbn [hasLF] in H. apply orb_false_iff in H. destruct H as [Hx Ha].
  cbn [String.append lines]. rewrite Hx, (IH Ha). reflexivity.
Qed.

Lemma lines_no_LF (a : string) : hasLF a = false -> lines a = [a].
Proof.
  induction a as [| x a IH]; cbn; intros H; [reflexivity |].
  apply orb_false_iff in H. destruct H as [Hx Ha].
  rewrite Hx, (IH Ha). reflexivity.
Qed.

Lemma cssLine_LF (colorName shade hex : string) :
  cssLine JSON.LF colorName shade hex
  = lineText colorName shade hex ++ JSON.LF.
Proof.
  unfold cssLine, lineText. rewrite !append_assoc. reflexivity.
Qed.

Lemma hasLF_lineText (colorName shade hex : string) :
  hasLF colorName = false -> hasLF shade = false -> hasLF hex = false ->
  hasLF (lineText colorName shade hex) = false.
Proof.
  intros H1 H2 H3. unfold lineText.
  rewrite !hasLF_app, H1, H2, H3. reflexivity.
Qed.

Lemma lines_join_LF (texts : list string) (rest : string) :
  Forall (fun t => hasLF t = false) texts ->
  lines (join (map (fun t => t ++ JSON.LF) texts) ++ rest)
  = (texts ++ lines rest)%list.
Proof.
  induction texts as [| t texts IH]; intros H; cbn [map join fold_right].
  - reflexivity.
  - inversion H as [| ? ? Ht Hts]; subst.
    fold (join (map (fun t => t ++ JSON.LF) texts)).
    rewrite !append_assoc, (lines_app_LF _ _ Ht), (IH Hts). reflexivity.
Qed.

Lemma cssLines_LF (colors : Obj.t (Obj.t string)) :
  cssLines JSON.LF colors = map (fun t => t ++ JSON.LF) (lineTexts colors).
Proof.
  unfold cssLines, lineTexts.
  induction colors as [| e colors IH]; cbn [flat_map map]; [reflexivity |].
  rewrite map_app, <- IH, map_map. f_equal.
  apply map_ext. intros s. apply cssLine_LF.
Qed.

Lemma lineTexts_plain (colors : Obj.t (Obj.t string)) :
  plain colors -> Forall (fun t => hasLF t = false) (lineTexts colors).
Proof.
  unfold plain, lineTexts.
  induction 1 as [| e colors [Hname Hshades] _ IH]; cbn [flat_map];
    [constructor |].
  apply Forall_app. split; [| exact IH].
  apply Forall_map. revert Hshades. apply Forall_impl.
  intros s [Hk Hv]. apply hasLF_lineText; assumption.
Qed.

(** X23.  In-process formatter, [css] branch: when no name, key or colour
    holds a line feed, the output is the line [:root {], then exactly one
    line per entry of the collected object, then the line [}]. *)
Lemma extension_css_one_line_per_entry (palettes : list namedPalette) :
  plain (collect palettes) ->
  lines (Extension.generateTailwindConfig palettes "css")
  = ":root {" :: (lineTexts (collect palettes) ++ ["}"])%list.
Proof.
  intros Hplain. unfold Extension.generateTailwindConfig.
  rewrite (proj1 (css_one_text_per_entry JSON.LF palettes)).
  rewrite append_assoc, lines_app_LF by reflexivity. f_equal.
  rewrite cssLines_LF, lines_join_LF by (apply lineTexts_plain, Hplain).
  reflexivity.
Qed.

Lemma extension_css_one_line_per_entry_witness :
  lines (Extension.generateTailwindConfig
           [mkPalette "primary" [("50", "#eff6ff"); ("100", "#dbeafe")]] "css")
  = [":root {"; "  --color-primary-50: #eff6ff;";
     "  --color-primary-100: #dbeafe;"; "}"].
Proof.
  apply (extension_css_one_line_per_entry
           [mkPalette "primary" [("50", "#eff6ff"); ("100", "#dbeafe")]]).
  repeat constructor.
Defined.

(** C7.  The formatter of the server writes a backslash and the letter n
    where the in-process formatter writes a line feed.  For the palette
    "primary" with shade 50 = [#eff6ff] its [css] output is one single
    line; no line of it is [  --color-primary-50: #eff6ff;], which the
    in-process formatter does emit as a line of its own. *)
Theorem server_css_single_line :
  let p := mkPalette "primary" [("50", "#eff6ff")] in
  McpServer.generateTailwindConfig [p] "css"
  = ":root {\n  --color-primary-50: #eff6ff;\n}"
  /\ lines (McpServer.generateTailwindConfig [p] "css")
     = [":root {\n  --color-primary-50: #eff6ff;\n}"]
  /\ ~ In "  --color-primary-50: #eff6ff;"
          (lines (McpServer.generateTailwindConfig [p] "css"))
  /\ lines (Extension.generateTailwindConfig [p] "css")
     = [":root {"; "  --color-primary-50: #eff6ff;"; "}"].
Proof.
  cbv zeta. split; [vm_compute; reflexivity |].
  split; [vm_compute; reflexivity |].
  split; [| vm_compute; reflexivity].
  vm_compute. intros [H | []]. discriminate H.
Qed.



(** X22.  The order in which the shades of a palette were assigned does
    not reach the output: shade keys are array indices, which every
    enumeration lists in ascending order. *)
Lemma generateTailwindConfig_shade_order
  (nl name format : string) (bindings1 bindings2 : list (string * string)) :
  Obj.indexed bindings1 -> NoDup (map fst bindings1) ->
  Permutation bindings1 bindings2 ->
  generateTailwindConfigWith nl [mkPalette name (Obj.assignAll bindings1)] format
  = generateTailwindConfigWith nl [mkPalette name (Obj.assignAll bindings2)] format.
Proof.
  intros Hidx Hnd Hp.
  rewrite (ObjFacts.assignAll_order_independent bindings1 bindings2 Hidx Hnd Hp).
  reflexivity.
Qed.

Lemma generateTailwindConfig_shade_order_witness :
  generateTailwindConfigWith JSON.LF
    [mkPalette "primary"
       (Obj.assignAll [("500", "#3b82f6"); ("50", "#eff6ff")])] "css"
  = generateTailwindConfigWith JSON.LF
      [mkPalette "primary"
         (Obj.assignAll [("50", "#eff6ff"); ("500", "#3b82f6")])] "css".
Proof.
  apply (generateTailwindConfig_shade_order JSON.LF "primary" "css"
           [("500", "#3b82f6"); ("50", "#eff6ff")]
           [("50", "#eff6ff"); ("500", "#3b82f6")]).
  - repeat constructor; eexists; vm_compute; reflexivity.
  - repeat constructor; simpl; intuition discriminate.
  - apply perm_swap.
Defined.

End ConfigFacts.

(* ================================================================== *)
(** ** Hexadecimal texts: printing and parsing *)

Module HexFacts.

Import Gradient.

(** Value of a digit list under a leading digit, most significant first. *)
Lemma digits_append (fuel : nat) (n d : Z) (acc : string) :
  0 < n -> 0 <= d < 16 ->
  digits 16 (S fuel) (16 * n + d) acc
  = digits 16 fuel n (String (digitChar d) acc).
Proof.
  intros Hn Hd. cbn [digits].
  replace ((16 * n + d) mod 16) with d by (Z.div_mod_to_equations; lia).
  replace ((16 * n + d) / 16) with n by (Z.div_mod_to_equations; lia).
  destruct (Z.eqb_spec n 0); [lia | reflexivity].
Qed.

Lemma digits_single (fuel : nat) (d : Z) (acc : string) :
  0 <= d < 16 -> digits 16 (S fuel) d acc = String (digitChar d) acc.
Proof.
  intros Hd. cbn [digits].
  rewrite (Z.mod_small d 16), (Z.div_small d 16) by lia. reflexivity.
Qed.

Lemma hexValue_digitChar (d : Z) :
  0 <= d < 16 -> hexValue (digitChar d) = Some d.
Proof.
  intros Hd.
  assert (H : d = 0 \/ d = 1 \/ d = 2 \/ d = 3 \/ d = 4 \/ d = 5 \/ d = 6
              \/ d = 7 \/ d = 8 \/ d = 9 \/ d = 10 \/ d = 11 \/ d = 12
              \/ d = 13 \/ d = 14 \/ d = 15) by lia.
  repeat (destruct H as [-> | H]; [reflexivity |]). subst. reflexivity.
Qed.

Lemma shl_small (x n : Z) :
  0 <= n -> 0 <= x -> x * 2 ^ n < 2 ^ 31 -> shl x n = x * 2 ^ n.
Proof.
  intros Hn Hx Hlt.
  assert (Hx' : x < 2 ^ 31).
  { assert (1 <= 2 ^ n) by (apply (Z.pow_le_mono_r 2 0 n); lia). nia. }
  unfold shl, toInt32.
  rewrite (Z.mod_small (x + 2 ^ 31)) by lia.
  replace (x + 2 ^ 31 - 2 ^ 31) with x by lia.
  rewrite Z.shiftl_mul_pow2 by lia.
  rewrite Z.mod_small by lia. lia.
Qed.

(** The seven digits of [2^24 + r * 2^16 + g * 2^8 + b]. *)
Lemma toString16_packed (r g b : Z) :
  0 <= r <= 255 -> 0 <= g <= 255 -> 0 <= b <= 255 ->
  toString16 (16777216 + r * 65536 + g * 256 + b)
  = String "1"
      (String (digitChar (r / 16)) (String (digitChar (r mod 16))
      (String (digitChar (g / 16)) (String (digitChar (g mod 16))
      (String (digitChar (b / 16)) (String (digitChar (b mod 16)) "")))))).
Proof.
  intros Hr Hg Hb.
  set (n := 16777216 + r * 65536 + g * 256 + b).
  assert (Hlog : Z.log2 n = 24).
  { apply Z.log2_unique; [lia |]. change (2 ^ 24) with 16777216.
    change (2 ^ (24 + 1)) with 33554432. unfold n. lia. }
  unfold toString16, toStringRadix.
  destruct (Z.ltb_spec n 0) as [Hneg | _]; [unfold n in Hneg; lia |].
  rewrite Hlog. change (S (Z.to_nat 24)) with 25%nat.
  assert (D : forall x, 0 <= x <= 255 -> 0 <= x / 16 < 16 /\ 0 <= x mod 16 < 16
                                          /\ x = 16 * (x / 16) + x mod 16).
  { intros x Hx. Z.div_mod_to_equations. lia. }
  destruct (D r Hr) as (Hr1 & Hr0 & Er), (D g Hg) as (Hg1 & Hg0 & Eg),
           (D b Hb) as (Hb1 & Hb0 & Eb).
  set (r1 := r / 16) in *. set (r0 := r mod 16) in *.
  set (g1 := g / 16) in *. set (g0 := g mod 16) in *.
  set (b1 := b / 16) in *. set (b0 := b mod 16) in *.
  replace n with
    (16 * (16 * (16 * (16 * (16 * (16 * 1 + r1) + r0) + g1) + g0) + b1) + b0)
    by (unfold n; lia).
  rewrite !digits_append by lia.
  apply digits_single. lia.
Qed.

Lemma parseHex2_digits (x : Z) :
  0 <= x <= 255 ->
  parseHex2 (digitChar (x / 16)) (digitChar (x mod 16)) = Some x.
Proof.
  intros Hx. unfold parseHex2.
  rewrite !hexValue_digitChar by (Z.div_mod_to_equations; lia).
  f_equal. Z.div_mod_to_equations. lia.
Qed.

Lemma rgbToHex_text (r g b : Z) :
  0 <= r <= 255 -> 0 <= g <= 255 -> 0 <= b <= 255 ->
  rgbToHex r g b
  = String "#"
      (String (digitChar (r / 16)) (String (digitChar (r mod 16))
      (String (digitChar (g / 16)) (String (digitChar (g mod 16))
      (String (digitChar (b / 16)) (String (digitChar (b mod 16)) "")))))).
Proof.
  intros Hr Hg Hb. unfold rgbToHex.
  rewrite (shl_small r 16), (shl_small g 8) by lia.
  change (shl 1 24) with 16777216.
  change (2 ^ 16) with 65536. change (2 ^ 8) with 256.
  rewrite toString16_packed by assumption. reflexivity.
Qed.

Lemma rgbToHex_parses (r g b : Z) :
  0 <= r <= 255 -> 0 <= g <= 255 -> 0 <= b <= 255 ->
  hexToRgb (Str (rgbToHex r g b)) = Some (mkRgb r g b).
Proof.
  intros Hr Hg Hb. rewrite rgbToHex_text by assumption.
  cbn [hexToRgb hexToRgbStr stripHash].
  rewrite !parseHex2_digits by assumption. reflexivity.
Qed.

(** X1.  Printing three channels in [0,255] with [rgbToHex] and parsing
    the text back with [hexToRgb] returns the three channels; the text is
    a [#] followed by six digits. *)
Theorem hexToRgb_rgbToHex (r g b : Z) :
  0 <= r <= 255 -> 0 <= g <= 255 -> 0 <= b <= 255 ->
  hexToRgb (Str (rgbToHex r g b)) = Some (mkRgb r g b)
  /\ String.length (rgbToHex r g b) = 7%nat
  /\ String.get 0 (rgbToHex r g b) = Some "#"%char.
Proof.
  intros Hr Hg Hb. split; [apply rgbToHex_parses; assumption |].
  rewrite rgbToHex_text by assumption. split; reflexivity.
Qed.

Lemma hexToRgb_rgbToHex_witness :
  hexToRgb (Str (rgbToHex 59 130 246)) = Some (mkRgb 59 130 246)
  /\ String.length (rgbToHex 59 130 246) = 7%nat
  /\ String.get 0 (rgbToHex 59 130 246) = Some "#"%char.
Proof.
  apply (hexToRgb_rgbToHex 59 130 246); lia.
Defined.

Lemma hexValue_range (c : ascii) (d : Z) :
  hexValue c = Some d -> 0 <= d < 16.
Proof.
  unfold hexValue. set (n := Z.of_nat (nat_of_ascii c)).
  destruct (Z.leb_spec 48 n), (Z.leb_spec n 57); cbn;
    try (intros [= <-]; lia);
    destruct (Z.leb_spec 97 n), (Z.leb_spec n 102); cbn;
    try (intros [= <-]; lia);
    destruct (Z.leb_spec 65 n), (Z.leb_spec n 70); cbn;
    try (intros [= <-]; lia); discriminate.
Qed.

Lemma parseHex2_range (c1 c2 : ascii) (x : Z) :
  parseHex2 c1 c2 = Some x -> 0 <= x <= 255.
Proof.
  unfold parseHex2.
  destruct (hexValue c1) as [hi |] eqn:E1; [| discriminate].
  destruct (hexValue c2) as [lo |] eqn:E2; [| discriminate].
  intros [= <-]. apply hexValue_range in E1. apply hexValue_range in E2.
  change (0 <= 16 * hi + lo <= 255). lia.
Qed.

Lemma hexToRgb_channels (hex : value) (c : rgb) :
  hexToRgb hex = Some c ->
  0 <= r c <= 255 /\ 0 <= g c <= 255 /\ 0 <= b c <= 255.
Proof.
  destruct hex as [s |]; [| discriminate]. cbn [hexToRgb]. unfold hexToRgbStr.
  destruct (stripHash s) as [| c1 [| c2 [| c3 [| c4 [| c5 [| c6 [| c7 rest]]]]]]];
    try discriminate.
  destruct (parseHex2 c1 c2) as [x |] eqn:E1; [| discriminate].
  destruct (parseHex2 c3 c4) as [y |] eqn:E2; [| discriminate].
  destruct (parseHex2 c5 c6) as [z |] eqn:E3; [| discriminate].
  intros [= <-]. cbn.
  apply parseHex2_range in E1, E2, E3. lia.
Qed.

(** X2.  Every colour [hexToRgb] returns has its three channels in
    [0,255], and printing it with [rgbToHex] and parsing again returns
    the same colour. *)
Theorem hexToRgb_range (hex : value) (c : rgb) :
  hexToRgb hex = Some c ->
  (0 <= r c <= 255 /\ 0 <= g c <= 255 /\ 0 <= b c <= 255)
  /\ hexToRgb (Str (rgbToHex (r c) (g c) (b c))) = Some c.
Proof.
  intros H. pose proof (hexToRgb_channels hex c H) as (Hr & Hg & Hb).
  split; [auto |]. destruct c as [x y z]. apply rgbToHex_parses; assumption.
Qed.

Lemma hexToRgb_range_witness :
  (0 <= r (mkRgb 255 0 128) <= 255 /\ 0 <= g (mkRgb 255 0 128) <= 255
   /\ 0 <= b (mkRgb 255 0 128) <= 255)
  /\ hexToRgb (Str (rgbToHex (r (mkRgb 255 0 128)) (g (mkRgb 255 0 128))
                             (b (mkRgb 255 0 128))))
     = Some (mkRgb 255 0 128).
Proof.
  apply (hexToRgb_range (Str "#FF0080") (mkRgb 255 0 128)). reflexivity.
Defined.

End HexFacts.

(* ================================================================== *)
(** ** Interpolation and the stops of a gradient *)

Module InterpolationFacts.

Import Gradient GradientFormat.
Local Open Scope Q_scope.

Lemma Math_round_mono (x y : Q) : x <= y -> (Math_round x <= Math_round y)%Z.
Proof.
  intros H. unfold Math_round. apply Qfloor_resp_le. lra.
Qed.

Lemma Math_round_Z (k : Z) : Math_round (inject_Z k) = k.
Proof. apply GradientFacts.Math_round_integer. reflexivity. Qed.

Lemma mix_between (a b : Z) (f : Q) :
  0 <= f <= 1 ->
  between a b (Math_round (inject_Z a + f * (inject_Z b - inject_Z a))).
Proof.
  intros Hf. unfold between.
  set (x := inject_Z a + f * (inject_Z b - inject_Z a)).
  assert (Hlo : forall k : Z, inject_Z k <= x -> (k <= Math_round x)%Z).
  { intros k Hk. rewrite <- (Math_round_Z k). apply Math_round_mono, Hk. }
  assert (Hhi : forall k : Z, x <= inject_Z k -> (Math_round x <= k)%Z).
  { intros k Hk. rewrite <- (Math_round_Z k). apply Math_round_mono, Hk. }
  destruct (Z.le_ge_cases a b) as [Hab | Hab].
  - rewrite Z.min_l, Z.max_r by lia.
    pose proof (PaletteFacts.inject_Z_le _ _ Hab) as Q.
    split; [apply Hlo | apply Hhi]; unfold x; nra.
  - rewrite Z.min_r, Z.max_l by lia.
    assert (Hba : (b <= a)%Z) by lia.
    pose proof (PaletteFacts.inject_Z_le _ _ Hba) as Q.
    split; [apply Hlo | apply Hhi]; unfold x; nra.
Qed.

Lemma between_range (a b x : Z) :
  (0 <= a <= 255)%Z -> (0 <= b <= 255)%Z -> between a b x -> (0 <= x <= 255)%Z.
Proof. unfold between. lia. Qed.

Lemma interpolate_between
  (color1 color2 : value) (f : Q) (rgb1 rgb2 : rgb) :
  hexToRgb color1 = Some rgb1 -> hexToRgb color2 = Some rgb2 ->
  0 <= f <= 1 ->
  exists c,
    hexToRgb (interpolateColors color1 color2 (Num f)) = Some c
    /\ between (r rgb1) (r rgb2) (r c)
    /\ between (g rgb1) (g rgb2) (g c)
    /\ between (b rgb1) (b rgb2) (b c).
Proof.
  intros H1 H2 Hf.
  destruct (HexFacts.hexToRgb_channels _ _ H1) as (Hr1 & Hg1 & Hb1).
  destruct (HexFacts.hexToRgb_channels _ _ H2) as (Hr2 & Hg2 & Hb2).
  unfold interpolateColors. rewrite H1, H2.
  pose proof (mix_between (r rgb1) (r rgb2) f Hf) as Br.
  pose proof (mix_between (g rgb1) (g rgb2) f Hf) as Bg.
  pose proof (mix_between (b rgb1) (b rgb2) f Hf) as Bb.
  eexists. split.
  - apply HexFacts.rgbToHex_parses.
    + exact (between_range _ _ _ Hr1 Hr2 Br).
    + exact (between_range _ _ _ Hg1 Hg2 Bg).
    + exact (between_range _ _ _ Hb1 Hb2 Bb).
  - cbn [r g b]. auto.
Qed.

(** X3.  For two parseable colours and a factor in [0,1],
    [interpolateColors] returns a parseable colour, each channel of which
    lies between the corresponding channels of the two inputs. *)
Theorem interpolateColors_between
  (color1 color2 : value) (f : Q) (rgb1 rgb2 : rgb) :
  hexToRgb color1 = Some rgb1 -> hexToRgb color2 = Some rgb2 ->
  0 <= f <= 1 ->
  exists c,
    hexToRgb (interpolateColors color1 color2 (Num f)) = Some c
    /\ between (r rgb1) (r rgb2) (r c)
    /\ between (g rgb1) (g rgb2) (g c)
    /\ between (b rgb1) (b rgb2) (b c).
Proof. exact (interpolate_between color1 color2 f rgb1 rgb2). Qed.

Lemma interpolateColors_between_witness :
  exists c,
    hexToRgb (interpolateColors (Str "#FF0000") (Str "#0000FF") (Num (1 # 4)))
    = Some c
    /\ between 255 0 (r c) /\ between 0 0 (g c) /\ between 0 255 (b c).
Proof.
  apply (interpolateColors_between (Str "#FF0000") (Str "#0000FF") (1 # 4)
           (mkRgb 255 0 0) (mkRgb 0 0 255)).
  - reflexivity.
  - reflexivity.
  - lra.
Defined.

(** X4.  At factor 0 [interpolateColors] returns the first colour and at
    factor 1 the second one, as colours: the text is printed anew by
    [rgbToHex], in lower case. *)
Theorem interpolateColors_endpoints
  (color1 color2 : value) (rgb1 rgb2 : rgb) :
  hexToRgb color1 = Some rgb1 -> hexToRgb color2 = Some rgb2 ->
  interpolateColors color1 color2 (Num 0)
  = Str (rgbToHex (r rgb1) (g rgb1) (b rgb1))
  /\ interpolateColors color1 color2 (Num 1)
     = Str (rgbToHex (r rgb2) (g rgb2) (b rgb2))
  /\ hexToRgb (interpolateColors color1 color2 (Num 0)) = Some rgb1
  /\ hexToRgb (interpolateColors color1 color2 (Num 1)) = Some rgb2.
Proof.
  intros H1 H2.
  destruct (HexFacts.hexToRgb_channels _ _ H1) as (Hr1 & Hg1 & Hb1).
  destruct (HexFacts.hexToRgb_channels _ _ H2) as (Hr2 & Hg2 & Hb2).
  assert (E0 : forall a c : Z,
             Math_round (inject_Z a + 0 * (inject_Z c - inject_Z a)) = a).
  { intros a c. apply GradientFacts.Math_round_integer. ring. }
  assert (E1 : forall a c : Z,
             Math_round (inject_Z a + 1 * (inject_Z c - inject_Z a)) = c).
  { intros a c. apply GradientFacts.Math_round_integer. ring. }
  unfold interpolateColors. rewrite H1, H2, !E0, !E1.
  repeat split; try reflexivity.
  - destruct rgb1 as [x y z]. apply HexFacts.rgbToHex_parses; assumption.
  - destruct rgb2 as [x y z]. apply HexFacts.rgbToHex_parses; assumption.
Qed.

Lemma interpolateColors_endpoints_witness :
  interpolateColors (Str "#FF0000") (Str "#0000FF") (Num 0)
  = Str (rgbToHex 255 0 0)
  /\ interpolateColors (Str "#FF0000") (Str "#0000FF") (Num 1)
     = Str (rgbToHex 0 0 255)
  /\ hexToRgb (interpolateColors (Str "#FF0000") (Str "#0000FF") (Num 0))
     = Some (mkRgb 255 0 0)
  /\ hexToRgb (interpolateColors (Str "#FF0000") (Str "#0000FF") (Num 1))
     = Some (mkRgb 0 0 255).
Proof.
  apply (interpolateColors_endpoints (Str "#FF0000") (Str "#0000FF")
           (mkRgb 255 0 0) (mkRgb 0 0 255)); reflexivity.
Defined.

Lemma scaled_range (steps i : Z) :
  (2 <= steps)%Z -> (0 <= i < steps)%Z ->
  0 <= scaled steps i <= inject_Z 10000.
Proof.
  intros Hs Hi.
  pose proof (GradientFacts.positive_denominator steps Hs) as Hd.
  assert (E : scaled steps i
              == inject_Z i / inject_Z (steps - 1) * inject_Z 10000).
  { unfold scaled. change (inject_Z 10000) with 10000. field. lra. }
  rewrite E. apply GradientFacts.colorIndex_range; lia.
Qed.

Lemma stopAt_position_range (colors : list string) (steps i : Z) :
  (2 <= steps)%Z -> (0 <= i < steps)%Z ->
  exists p, position (stopAt colors steps i) = Num p /\ 0 <= p <= 100.
Proof.
  intros Hs Hi. rewrite GradientFacts.stopAt_position by exact Hs.
  eexists. split; [reflexivity |].
  destruct (scaled_range steps i Hs Hi) as [Hlo Hhi].
  apply Math_round_mono in Hlo, Hhi.
  rewrite Math_round_Z in Hhi. change 0 with (inject_Z 0) in Hlo.
  rewrite Math_round_Z in Hlo.
  apply PaletteFacts.inject_Z_le in Hlo, Hhi.
  change (inject_Z 0) with 0 in Hlo. change (inject_Z 10000) with 10000 in Hhi.
  set (m := inject_Z (Math_round (scaled steps i))) in *.
  unfold Qdiv. change (/ 100) with (1 # 100). lra.
Qed.

Lemma stopAt_parseable (colors : list string) (steps i : Z) :
  Forall (fun c => hexToRgbStr c <> None) colors ->
  (2 <= List.length colors)%nat -> (2 <= steps)%Z -> (0 <= i < steps)%Z ->
  parseable (color (stopAt colors steps i)).
Proof.
  intros Hok Hlen Hsteps Hi. unfold stopAt.
  destruct (Z.eqb_spec steps 1) as [E | _]; [lia |].
  cbv zeta. cbn [color].
  set (x := inject_Z i / inject_Z (steps - 1)
            * inject_Z (Z.of_nat (List.length colors) - 1)).
  assert (Hx : 0 <= x <= inject_Z (Z.of_nat (List.length colors) - 1)).
  { apply GradientFacts.colorIndex_range; lia. }
  assert (Hfloor : (0 <= Math_floor x < Z.of_nat (List.length colors))%Z).
  { unfold Math_floor. split.
    - rewrite <- (Qfloor_Z 0). apply Qfloor_resp_le. exact (proj1 Hx).
    - pose proof (Qfloor_resp_le _ _ (proj2 Hx)) as Hle.
      rewrite Qfloor_Z in Hle. lia. }
  assert (Hceil : (0 <= Math_ceil x < Z.of_nat (List.length colors))%Z).
  { unfold Math_ceil. split.
    - rewrite <- (Qceiling_Z 0). apply Qceiling_resp_le. exact (proj1 Hx).
    - pose proof (Qceiling_resp_le _ _ (proj2 Hx)) as Hle.
      rewrite Qceiling_Z in Hle. lia. }
  rewrite Forall_forall in Hok.
  assert (Hidx : forall k, (0 <= k < Z.of_nat (List.length colors))%Z ->
                           exists c, hexToRgb (index colors k) = Some c).
  { intros k Hk.
    destruct (GradientFacts.index_in_range colors k Hk) as [c [Hin ->]].
    cbn. specialize (Hok c Hin).
    destruct (hexToRgbStr c) as [v |]; [exists v; reflexivity | congruence]. }
  destruct (Hidx _ Hfloor) as [lo Hlo], (Hidx _ Hceil) as [hi Hhi].
  unfold parseable.
  destruct (Math_floor x =? Math_ceil x)%Z; [rewrite Hlo; discriminate |].
  assert (Hf : 0 <= x - inject_Z (Math_floor x) <= 1).
  { unfold Math_floor. pose proof (Qfloor_le x) as H1.
    pose proof (Qlt_floor x) as H2. rewrite inject_Z_plus in H2.
    change (inject_Z 1) with 1 in H2. lra. }
  destruct (interpolate_between _ _ _ lo hi Hlo Hhi Hf) as [c [Hc _]].
  rewrite Hc. discriminate.
Qed.

(** X5.  When every input colour is parseable, there are at least two of
    them and [steps >= 2], every stop of [generateGradientStops] carries
    a parseable colour and a position within [0,100]. *)
Theorem generateGradientStops_stops_valid
  (colors : list string) (steps : Z) (direction : string) :
  Forall (fun c => hexToRgbStr c <> None) colors ->
  (2 <= List.length colors)%nat -> (2 <= steps)%Z ->
  exists stops,
    generateGradientStops colors steps direction = Return (stops, direction)
    /\ Forall (fun s => parseable (color s)
                        /\ exists p, position s = Num p /\ 0 <= p <= 100)
              stops.
Proof.
  intros Hok Hlen Hsteps.
  exists (map (stopAt colors steps) (loopIndices steps)). split.
  - unfold generateGradientStops.
    destruct (Z.ltb_spec (Z.of_nat (List.length colors)) 2); [lia | reflexivity].
  - apply Forall_forall. intros s Hs.
    apply In_nth_error in Hs. destruct Hs as [k Hk].
    apply GradientFacts.nth_error_stops_inv in Hk. destruct Hk as [Hk ->].
    split.
    + apply stopAt_parseable; try assumption. lia.
    + apply stopAt_position_range; lia.
Qed.

Lemma generateGradientStops_stops_valid_witness :
  exists stops,
    generateGradientStops ["#ff0000"; "#00FF00"; "0000ff"]%string 7 "to-br"
    = Return (stops, "to-br"%string)
    /\ Forall (fun s => parseable (color s)
                        /\ exists p, position s = Num p /\ 0 <= p <= 100)
              stops.
Proof.
  apply (generateGradientStops_stops_valid
           ["#ff0000"; "#00FF00"; "0000ff"]%string 7 "to-br").
  - repeat constructor; discriminate.
  - simpl. lia.
  - lia.
Defined.

(** The channel [round(c1 + f * (c2 - c1))] of [interpolateColors]. *)
Lemma mix_mono (a b : Z) (f1 f2 : Q) :
  f1 <= f2 ->
  ((a <= b)%Z ->
   (Math_round (inject_Z a + f1 * (inject_Z b - inject_Z a))
    <= Math_round (inject_Z a + f2 * (inject_Z b - inject_Z a)))%Z)
  /\ ((b <= a)%Z ->
      (Math_round (inject_Z a + f2 * (inject_Z b - inject_Z a))
       <= Math_round (inject_Z a + f1 * (inject_Z b - inject_Z a)))%Z).
Proof.
  intros Hf. split; intros Hab; apply Math_round_mono;
    pose proof (PaletteFacts.inject_Z_le _ _ Hab) as Q; nra.
Qed.

Lemma Math_round_comp (x y : Q) : x == y -> Math_round x = Math_round y.
Proof.
  intros H. unfold Math_round. apply Qfloor_comp. rewrite H. reflexivity.
Qed.

(** The colour of stop [i] of a two-colour gradient, as channels. *)
Lemma two_colour_stop (a c : string) (rgb1 rgb2 : rgb) (steps i : Z) :
  hexToRgbStr a = Some rgb1 -> hexToRgbStr c = Some rgb2 ->
  (2 <= steps)%Z -> (0 <= i < steps)%Z ->
  let f := inject_Z i / inject_Z (steps - 1) in
  hexToRgb (color (stopAt [a; c] steps i))
  = Some (mkRgb
            (Math_round (inject_Z (r rgb1) + f * (inject_Z (r rgb2) - inject_Z (r rgb1))))
            (Math_round (inject_Z (g rgb1) + f * (inject_Z (g rgb2) - inject_Z (g rgb1))))
            (Math_round (inject_Z (b rgb1) + f * (inject_Z (b rgb2) - inject_Z (b rgb1))))).
Proof.
  intros H1 H2 Hsteps Hi. cbv zeta.
  pose proof (GradientFacts.positive_denominator steps Hsteps) as Hd.
  set (f := inject_Z i / inject_Z (steps - 1)).
  assert (Hf : 0 <= f <= 1).
  { pose proof (GradientFacts.colorIndex_range i (steps - 1) 1
                  ltac:(lia) ltac:(lia) ltac:(lia)) as R.
    fold f in R. change (inject_Z 1) with 1 in R. lra. }
  destruct (HexFacts.hexToRgb_channels (Str a) rgb1 H1) as (Hr1 & Hg1 & Hb1).
  destruct (HexFacts.hexToRgb_channels (Str c) rgb2 H2) as (Hr2 & Hg2 & Hb2).
  unfold stopAt. destruct (Z.eqb_spec steps 1) as [E | _]; [lia |].
  cbv zeta. cbn [color List.length].
  change (Z.of_nat 2 - 1)%Z with 1%Z. fold f.
  set (x := f * inject_Z 1).
  assert (Ex : x == f) by (unfold x; change (inject_Z 1) with 1; ring).
  destruct (Z.eqb_spec (Math_floor x) (Math_ceil x)) as [Eq | Ne].
  - (* an exact seed: f is 0 or 1 *)
    unfold Math_floor, Math_ceil in *.
    pose proof (Qfloor_le x) as F1. pose proof (Qle_ceiling x) as F2.
    rewrite <- Eq in F2.
    assert (Hint : x == inject_Z (Qfloor x)) by lra.
    assert (Hk : (0 <= Qfloor x <= 1)%Z).
    { split.
      - rewrite <- (Qfloor_Z 0). apply Qfloor_resp_le.
        change (inject_Z 0) with 0. lra.
      - rewrite <- (Qfloor_Z 1). apply Qfloor_resp_le.
        change (inject_Z 1) with 1. lra. }
    assert (Hcases : Qfloor x = 0%Z \/ Qfloor x = 1%Z) by lia.
    destruct Hcases as [K | K]; rewrite K in *;
      [change (index [a; c] 0) with (Str a)
      | change (index [a; c] 1) with (Str c)]; cbn [hexToRgb].
    + rewrite H1. destruct rgb1 as [r1 g1 b1]. cbn [r g b]. f_equal.
      f_equal; symmetry; apply GradientFacts.Math_round_integer;
        change (inject_Z 0) with 0 in Hint; rewrite <- Ex, Hint; ring.
    + rewrite H2. destruct rgb2 as [r2 g2 b2]. cbn [r g b]. f_equal.
      f_equal; symmetry; apply GradientFacts.Math_round_integer;
        change (inject_Z 1) with 1 in Hint; rewrite <- Ex, Hint; ring.
  - (* strictly between the two seeds *)
    unfold Math_floor, Math_ceil in *.
    assert (Hfl : Qfloor x = 0%Z).
    { assert (H0 : (0 <= Qfloor x)%Z).
      { rewrite <- (Qfloor_Z 0). apply Qfloor_resp_le.
        change (inject_Z 0) with 0. lra. }
      assert (H1' : (Qfloor x <= 1)%Z).
      { rewrite <- (Qfloor_Z 1). apply Qfloor_resp_le.
        change (inject_Z 1) with 1. lra. }
      destruct (Z.eq_dec (Qfloor x) 1) as [K | K]; [| lia].
      exfalso. apply Ne.
      assert (Hx1 : x == inject_Z 1).
      { pose proof (Qfloor_le x) as F. rewrite K in F.
        change (inject_Z 1) with 1 in *. lra. }
      rewrite (Qfloor_comp _ _ Hx1), (Qceiling_comp _ _ Hx1).
      rewrite Qfloor_Z, Qceiling_Z. reflexivity. }
    assert (Hce : Qceiling x = 1%Z).
    { assert (H0 : (Qfloor x <= Qceiling x)%Z).
      { rewrite Zle_Qle. apply Qle_floor_ceiling. }
      assert (H1' : (Qceiling x <= 1)%Z).
      { rewrite <- (Qceiling_Z 1). apply Qceiling_resp_le.
        change (inject_Z 1) with 1. lra. }
      lia. }
    rewrite Hfl, Hce.
    change (index [a; c] 0) with (Str a). change (index [a; c] 1) with (Str c).
    unfold interpolateColors. cbn [hexToRgb]. rewrite H1, H2.
    assert (Efac : x - inject_Z 0 == f).
    { change (inject_Z 0) with 0. rewrite Ex. ring. }
    assert (Hfac : 0 <= x - inject_Z 0 <= 1) by (rewrite Efac; exact Hf).
    rewrite HexFacts.rgbToHex_parses;
      try (eapply between_range; [| | apply mix_between; exact Hfac];
           assumption).
    f_equal. f_equal; apply Math_round_comp; rewrite Efac; reflexivity.
Qed.

(** X24.  In a gradient over two parseable colours ([steps >= 2]) every
    channel moves monotonically from the first colour to the second: for
    stops [i <= j], a channel that is lower in the first colour does not
    decrease, and one that is higher does not increase. *)
Theorem two_colour_gradient_monotone
  (a c : string) (rgb1 rgb2 : rgb) (steps i j : Z) :
  hexToRgbStr a = Some rgb1 -> hexToRgbStr c = Some rgb2 ->
  (2 <= steps)%Z -> (0 <= i)%Z -> (i <= j)%Z -> (j < steps)%Z ->
  exists ci cj,
    hexToRgb (color (stopAt [a; c] steps i)) = Some ci
    /\ hexToRgb (color (stopAt [a; c] steps j)) = Some cj
    /\ ((r rgb1 <= r rgb2)%Z -> (r ci <= r cj)%Z)
    /\ ((r rgb2 <= r rgb1)%Z -> (r cj <= r ci)%Z)
    /\ ((g rgb1 <= g rgb2)%Z -> (g ci <= g cj)%Z)
    /\ ((g rgb2 <= g rgb1)%Z -> (g cj <= g ci)%Z)
    /\ ((b rgb1 <= b rgb2)%Z -> (b ci <= b cj)%Z)
    /\ ((b rgb2 <= b rgb1)%Z -> (b cj <= b ci)%Z).
Proof.
  intros H1 H2 Hsteps Hi Hij Hj.
  pose proof (GradientFacts.positive_denominator steps Hsteps) as Hd.
  assert (Hf : inject_Z i / inject_Z (steps - 1)
               <= inject_Z j / inject_Z (steps - 1)).
  { pose proof (PaletteFacts.inject_Z_le _ _ Hij) as Q.
    unfold Qdiv. apply Qmult_le_compat_r; [exact Q |].
    apply Qlt_le_weak, Qinv_lt_0_compat, Hd. }
  eexists _, _.
  split; [apply (two_colour_stop a c rgb1 rgb2 steps i); assumption || lia |].
  split; [apply (two_colour_stop a c rgb1 rgb2 steps j); assumption || lia |].
  cbn [r g b].
  repeat split; intros Hc;
    first [ apply (proj1 (mix_mono _ _ _ _ Hf)), Hc
          | apply (proj2 (mix_mono _ _ _ _ Hf)), Hc ].
Qed.

Lemma two_colour_gradient_monotone_witness :
  exists ci cj,
    hexToRgb (color (stopAt ["#FF0000"; "#0000FF"]%string 5 1)) = Some ci
    /\ hexToRgb (color (stopAt ["#FF0000"; "#0000FF"]%string 5 3)) = Some cj
    /\ ((255 <= 0)%Z -> (r ci <= r cj)%Z)
    /\ ((0 <= 255)%Z -> (r cj <= r ci)%Z)
    /\ ((0 <= 0)%Z -> (g ci <= g cj)%Z)
    /\ ((0 <= 0)%Z -> (g cj <= g ci)%Z)
    /\ ((0 <= 255)%Z -> (b ci <= b cj)%Z)
    /\ ((255 <= 0)%Z -> (b cj <= b ci)%Z).
Proof.
  apply (two_colour_gradient_monotone "#FF0000" "#0000FF"
           (mkRgb 255 0 0) (mkRgb 0 0 255) 5 1 3); solve [reflexivity | lia].
Defined.

End InterpolationFacts.

(* ================================================================== *)
(** ** The gradient formatter *)

Module GradientFormatFacts.

Import Gradient GradientFormat Config.

Section Printing.

Variable show : Q -> string.

Lemma concat_space (l : list string) :
  l <> [] ->
  " " ++ String.concat " " l = join (map (fun x => " " ++ x) l).
Proof.
  induction l as [| x [| y l] IH]; intros Hne; [congruence | |].
  - cbn. rewrite ConfigFacts.append_nil_r. reflexivity.
  - change (String.concat " " (x :: y :: l))
      with (x ++ " " ++ String.concat " " (y :: l)).
    rewrite IH by discriminate.
    change (join (map (fun x0 => " " ++ x0) (x :: y :: l)))
      with ((" " ++ x) ++ join (map (fun x0 => " " ++ x0) (y :: l))).
    rewrite ConfigFacts.append_assoc. reflexivity.
Qed.

Lemma interior_short (stops : list stop) :
  (List.length stops <= 2)%nat -> interior stops = [].
Proof.
  destruct stops as [| a [| b [| c rest]]]; cbn; intros H; try reflexivity; lia.
Qed.

Lemma interior_length (stops : list stop) :
  List.length (interior stops) = (List.length stops - 2)%nat.
Proof.
  unfold interior. destruct stops as [| a rest]; [reflexivity |].
  cbn [tl List.length].
  induction rest as [| b [| c rest] IH]; [reflexivity | reflexivity |].
  change (removelast (b :: c :: rest)) with (b :: removelast (c :: rest)).
  cbn [List.length] in *. rewrite IH. lia.
Qed.

(** The text of the [tailwind] branch on a non-empty stop list. *)
Lemma tailwind_text (first : stop) (rest : list stop) (direction : string) :
  generateTailwindGradient show (first :: rest, direction) "tailwind"
  = Return (Text
      ("bg-gradient-" ++ direction ++ " from-[" ++ valueText (color first) ++ "]"
       ++ join (map (fun s => " via-[" ++ valueText (color s) ++ "]")
                    (interior (first :: rest)))
       ++ " to-[" ++ valueText (color (last (first :: rest) first)) ++ "]")).
Proof.
  unfold generateTailwindGradient.
  cbn [String.eqb Ascii.eqb Bool.eqb andb].
  set (stops := first :: rest).
  set (via := fun s : stop => "via-[" ++ valueText (color s) ++ "]").
  assert (Emap : map (fun s => " via-[" ++ valueText (color s) ++ "]")
                     (interior stops)
                 = map (fun x => " " ++ x) (map via (interior stops))).
  { rewrite map_map. reflexivity. }
  rewrite Emap.
  destruct (Nat.ltb_spec 2 (List.length stops)) as [Hlong | Hshort].
  - assert (Hne : map via (interior stops) <> []).
    { intros E. apply (f_equal (@List.length _)) in E.
      rewrite length_map, interior_length in E.
      change (List.length (@nil string)) with 0%nat in E. lia. }
    rewrite <- (concat_space _ Hne).
    rewrite !ConfigFacts.append_assoc. reflexivity.
  - rewrite (interior_short stops Hshort). cbn [map join fold_right].
    rewrite !ConfigFacts.append_assoc. reflexivity.
Qed.

Lemma stops_cons (colors : list string) (steps : Z) :
  (1 <= steps)%Z ->
  exists rest,
    map (stopAt colors steps) (loopIndices steps)
    = stopAt colors steps 0 :: rest.
Proof.
  intros H. unfold loopIndices.
  destruct (Z.to_nat steps) as [| n] eqn:E; [lia |].
  cbn [seq map]. eexists. reflexivity.
Qed.

(** X6.  Formatting the stops of [generateGradientStops] (at least two
    colours, [steps >= 2]) as Tailwind classes gives the direction class,
    [from-[..]] with the first input colour, one [via-[..]] per interior
    stop ([steps - 2] of them) and [to-[..]] with the last input colour,
    whether or not the colours are parseable. *)
Theorem tailwind_classes_of_gradient
  (colors : list string) (steps : Z) (direction : string) :
  (2 <= List.length colors)%nat -> (2 <= steps)%Z ->
  exists stops,
    generateGradientStops colors steps direction = Return (stops, direction)
    /\ Z.of_nat (List.length (interior stops)) = (steps - 2)%Z
    /\ generateTailwindGradient show (stops, direction) "tailwind"
       = Return (Text
           ("bg-gradient-" ++ direction
            ++ " from-[" ++ hd "" colors ++ "]"
            ++ join (map (fun s => " via-[" ++ valueText (color s) ++ "]")
                         (interior stops))
            ++ " to-[" ++ last colors "" ++ "]")).
Proof.
  intros Hlen Hsteps.
  set (stops := map (stopAt colors steps) (loopIndices steps)).
  pose proof (GradientFacts.length_stops colors steps ltac:(lia)) as Hcount.
  fold stops in Hcount.
  exists stops. split; [| split].
  - unfold generateGradientStops.
    destruct (Z.ltb_spec (Z.of_nat (List.length colors)) 2); [lia | reflexivity].
  - rewrite interior_length. lia.
  - destruct (stops_cons colors steps ltac:(lia)) as [rest Hrest].
    fold stops in Hrest.
    assert (Hfirst : color (stopAt colors steps 0) = Str (hd "" colors)).
    { rewrite (GradientFacts.stopAt_color_at_seed colors steps 0 0 Hsteps).
      - destruct colors; [simpl in Hlen; lia | reflexivity].
      - pose proof (GradientFacts.positive_denominator steps Hsteps).
        change (inject_Z 0) with 0%Q. field. lra. }
    assert (Hlast : last stops (stopAt colors steps 0)
                    = stopAt colors steps (steps - 1)).
    { assert (Hne : stops <> []) by (rewrite Hrest; discriminate).
      pose proof (GradientFacts.nth_error_last stops (stopAt colors steps 0) Hne)
        as Hn.
      unfold stops in Hn at 1.
      rewrite (GradientFacts.nth_error_stops colors steps) in Hn
        by (fold stops; lia).
      injection Hn as <-. f_equal. fold stops. lia. }
    assert (Hfinal : color (stopAt colors steps (steps - 1))
                     = Str (last colors "")).
    { rewrite (GradientFacts.stopAt_color_at_seed colors steps (steps - 1)
                 (Z.of_nat (List.length colors) - 1) Hsteps).
      - apply GradientFacts.index_last.
        destruct colors; [simpl in Hlen; lia | discriminate].
      - pose proof (GradientFacts.positive_denominator steps Hsteps).
        field. lra. }
    rewrite Hrest, tailwind_text, <- Hrest, Hlast, Hfirst, Hfinal.
    reflexivity.
Qed.

(** X7.  With a step count of zero or less [generateGradientStops]
    returns an empty stop list (given two colours or more); on it the
    [tailwind] format throws, while the [css] format returns a gradient
    text without any stop. *)
Theorem gradient_without_stops
  (colors : list string) (steps : Z) (direction : string) :
  (2 <= List.length colors)%nat -> (steps <= 0)%Z ->
  generateGradientStops colors steps direction = Return ([], direction)
  /\ (exists message,
        generateTailwindGradient show ([], direction) "tailwind"
        = Throw message)
  /\ generateTailwindGradient show ([], direction) "css"
     = Return (Text ("background: linear-gradient("
                       ++ replaceTo direction ++ ", );")).
Proof.
  intros Hlen Hsteps. split; [| split].
  - unfold generateGradientStops, loopIndices.
    destruct (Z.ltb_spec (Z.of_nat (List.length colors)) 2); [lia |].
    replace (Z.to_nat steps) with 0%nat by lia. reflexivity.
  - eexists. reflexivity.
  - unfold generateTailwindGradient, linearGradient.
    cbn [String.eqb Ascii.eqb Bool.eqb andb map String.concat].
    rewrite !ConfigFacts.append_assoc. reflexivity.
Qed.

(** X8.  With a step count of one the single stop has an undefined colour
    and a NaN position, whatever the colours: the Tailwind classes then
    read [from-[undefined] to-[undefined]] and the css text holds the
    stop [undefined NaN%]. *)
Theorem gradient_single_step (colors : list string) (direction : string) :
  (2 <= List.length colors)%nat ->
  generateGradientStops colors 1 direction
  = Return ([mkStop Undefined NaN], direction)
  /\ generateTailwindGradient show ([mkStop Undefined NaN], direction) "tailwind"
     = Return (Text ("bg-gradient-" ++ direction
                       ++ " from-[undefined] to-[undefined]"))
  /\ generateTailwindGradient show ([mkStop Undefined NaN], direction) "css"
     = Return (Text ("background: linear-gradient(" ++ replaceTo direction
                       ++ ", undefined NaN%);")).
Proof.
  intros Hlen. split; [| split].
  - unfold generateGradientStops.
    destruct (Z.ltb_spec (Z.of_nat (List.length colors)) 2); [lia |].
    reflexivity.
  - rewrite tailwind_text. reflexivity.
  - unfold generateTailwindGradient, linearGradient.
    cbn [String.eqb Ascii.eqb Bool.eqb andb map String.concat stopString
         valueText numberText color position].
    rewrite !ConfigFacts.append_assoc. reflexivity.
Qed.

End Printing.

Lemma tailwind_classes_of_gradient_witness :
  exists stops,
    generateGradientStops ["#FF0000"; "#0000FF"] 3 "to-r"
    = Return (stops, "to-r")
    /\ Z.of_nat (List.length (interior stops)) = (3 - 2)%Z
    /\ generateTailwindGradient (fun _ => "") (stops, "to-r") "tailwind"
       = Return (Text
           ("bg-gradient-" ++ "to-r"
            ++ " from-[" ++ "#FF0000" ++ "]"
            ++ join (map (fun s => " via-[" ++ valueText (color s) ++ "]")
                         (interior stops))
            ++ " to-[" ++ "#0000FF" ++ "]")).
Proof.
  apply (tailwind_classes_of_gradient (fun _ => "")
           ["#FF0000"; "#0000FF"] 3 "to-r").
  - simpl. lia.
  - lia.
Defined.

Lemma gradient_without_stops_witness :
  generateGradientStops ["#FF0000"; "#0000FF"] 0 "to-r" = Return ([], "to-r")
  /\ (exists message,
        generateTailwindGradient (fun _ => "") ([], "to-r") "tailwind"
        = Throw message)
  /\ generateTailwindGradient (fun _ => "") ([], "to-r") "css"
     = Return (Text ("background: linear-gradient(" ++ replaceTo "to-r" ++ ", );")).
Proof.
  apply (gradient_without_stops (fun _ => "") ["#FF0000"; "#0000FF"] 0 "to-r").
  - simpl. lia.
  - lia.
Defined.

Lemma gradient_single_step_witness :
  generateGradientStops ["#FF0000"; "#0000FF"] 1 "to-r"
  = Return ([mkStop Undefined NaN], "to-r")
  /\ generateTailwindGradient (fun _ => "") ([mkStop Undefined NaN], "to-r")
       "tailwind"
     = Return (Text ("bg-gradient-" ++ "to-r"
                       ++ " from-[undefined] to-[undefined]"))
  /\ generateTailwindGradient (fun _ => "") ([mkStop Undefined NaN], "to-r") "css"
     = Return (Text ("background: linear-gradient(" ++ replaceTo "to-r"
                       ++ ", undefined NaN%);")).
Proof.
  apply (gradient_single_step (fun _ => "") ["#FF0000"; "#0000FF"] "to-r").
  simpl. lia.
Defined.

End GradientFormatFacts.

(* ================================================================== *)
(** ** The in-process palette on parsed and unparsed input *)

Module ExtensionPaletteFacts.

Import Config Extension.
Local Open Scope Q_scope.

Lemma hexValue_plain (c : ascii) (d : Z) :
  hexValue c = Some d ->
  Ascii.eqb c "#" = false /\ isWhiteSpace c = false.
Proof.
  destruct c as [[] [] [] [] [] [] [] []]; vm_compute; intros H;
    solve [discriminate H | split; reflexivity].
Qed.

Lemma replaceHash_digit (c : ascii) (d : Z) (rest : string) :
  hexValue c = Some d ->
  replaceHash (String c rest) = String c (replaceHash rest).
Proof.
  intros H. cbn [replaceHash].
  rewrite (proj1 (hexValue_plain c d H)). reflexivity.
Qed.

(** [parseInt] on six hexadecimal digits. *)
Lemma parseInt16_six (c1 c2 c3 c4 c5 c6 : ascii) (d1 d2 d3 d4 d5 d6 : Z) :
  hexValue c1 = Some d1 -> hexValue c2 = Some d2 -> hexValue c3 = Some d3 ->
  hexValue c4 = Some d4 -> hexValue c5 = Some d5 -> hexValue c6 = Some d6 ->
  parseInt16 (String c1 (String c2 (String c3 (String c4 (String c5
               (String c6 ""))))))
  = Some (65536 * (16 * d1 + d2) + 256 * (16 * d3 + d4) + (16 * d5 + d6))%Z.
Proof.
  intros H1 H2 H3 H4 H5 H6.
  assert (Hgoal : forall v : Z, hexValue c1 = Some v ->
            parseInt16 (String c1 (String c2 (String c3 (String c4 (String c5
                         (String c6 ""))))))
            = option_map (Z.mul 1)
                (hexPrefix (String c1 (String c2 (String c3 (String c4
                              (String c5 (String c6 "")))))) None)).
  { clear - H2. intros v H1.
    destruct c1 as [[] [] [] [] [] [] [] []]; vm_compute in H1;
      try discriminate H1; clear H1;
      try (unfold parseInt16; cbn [trimStart isWhiteSpace nat_of_ascii];
           reflexivity).
    (* the leading digit is 0: the second one is neither x nor X *)
    destruct c2 as [[] [] [] [] [] [] [] []]; vm_compute in H2;
      try discriminate H2; reflexivity. }
  rewrite (Hgoal d1 H1). cbn [hexPrefix].
  rewrite H1, H2, H3, H4, H5, H6. cbn [option_map]. f_equal. lia.
Qed.

Lemma parseHex2_inv (c1 c2 : ascii) (x : Z) :
  Gradient.parseHex2 c1 c2 = Some x ->
  exists hi lo, hexValue c1 = Some hi /\ hexValue c2 = Some lo
                /\ x = (16 * hi + lo)%Z.
Proof.
  unfold Gradient.parseHex2.
  destruct (hexValue c1) as [hi |]; [| discriminate].
  destruct (hexValue c2) as [lo |]; [| discriminate].
  intros H. exists hi, lo. repeat split. congruence.
Qed.

Lemma parseInt16_of_hex (baseColor : string) (c : Gradient.rgb) :
  Gradient.hexToRgbStr baseColor = Some c ->
  parseInt16 (replaceHash baseColor)
  = Some (65536 * Gradient.r c + 256 * Gradient.g c + Gradient.b c)%Z.
Proof.
  unfold Gradient.hexToRgbStr. intros H.
  assert (Hsix : forall c1 c2 c3 c4 c5 c6,
             match Gradient.parseHex2 c1 c2, Gradient.parseHex2 c3 c4,
                   Gradient.parseHex2 c5 c6 with
             | Some r, Some g, Some b => Some (Gradient.mkRgb r g b)
             | _, _, _ => None
             end = Some c ->
             (exists d1, hexValue c1 = Some d1)
             /\ parseInt16 (String c1 (String c2 (String c3 (String c4
                              (String c5 (String c6 ""))))))
                = Some (65536 * Gradient.r c + 256 * Gradient.g c
                        + Gradient.b c)%Z).
  { intros c1 c2 c3 c4 c5 c6 E.
    destruct (Gradient.parseHex2 c1 c2) as [x |] eqn:E1; [| discriminate].
    destruct (Gradient.parseHex2 c3 c4) as [y |] eqn:E2; [| discriminate].
    destruct (Gradient.parseHex2 c5 c6) as [z |] eqn:E3; [| discriminate].
    injection E as <-. cbn [Gradient.r Gradient.g Gradient.b].
    apply parseHex2_inv in E1, E2, E3.
    destruct E1 as (d1 & d2 & H1 & H2 & ->), E2 as (d3 & d4 & H3 & H4 & ->),
             E3 as (d5 & d6 & H5 & H6 & ->).
    split; [exists d1; exact H1 |].
    apply parseInt16_six; assumption. }
  destruct baseColor as [| a rest]; [discriminate |].
  destruct (Ascii.eqb a "#") eqn:Ea.
  - apply Ascii.eqb_eq in Ea. subst a.
    cbn [Gradient.stripHash replaceHash Ascii.eqb Bool.eqb] in *.
    destruct rest as [| c1 [| c2 [| c3 [| c4 [| c5 [| c6 [| c7 r]]]]]]];
      try discriminate.
    apply (Hsix _ _ _ _ _ _ H).
  - assert (Es : Gradient.stripHash (String a rest) = String a rest).
    { destruct a as [[] [] [] [] [] [] [] []]; try reflexivity.
      discriminate Ea. }
    rewrite Es in H.
    destruct rest as [| c2 [| c3 [| c4 [| c5 [| c6 [| c7 r]]]]]];
      try discriminate.
    destruct (Hsix _ _ _ _ _ _ H) as [[d1 H1] Hp]. rewrite <- Hp. f_equal.
    destruct (Gradient.parseHex2 a c2) as [x |] eqn:E1; [| discriminate].
    destruct (Gradient.parseHex2 c3 c4) as [y |] eqn:E2; [| discriminate].
    destruct (Gradient.parseHex2 c5 c6) as [z |] eqn:E3; [| discriminate].
    apply parseHex2_inv in E1, E2, E3.
    destruct E1 as (? & d2 & _ & H2 & _), E2 as (d3 & d4 & H3 & H4 & _),
             E3 as (d5 & d6 & H5 & H6 & _).
    rewrite (replaceHash_digit a d1) by exact H1.
    rewrite (replaceHash_digit c2 d2) by exact H2.
    rewrite (replaceHash_digit c3 d3) by exact H3.
    rewrite (replaceHash_digit c4 d4) by exact H4.
    rewrite (replaceHash_digit c5 d5) by exact H5.
    rewrite (replaceHash_digit c6 d6) by exact H6.
    reflexivity.
Qed.

(** X9.  On a text that [hexToRgb] accepts (six digits, with or without
    [#]), the number [parseInt] reads for the palette is
    [65536 * r + 256 * g + b] for the channels [hexToRgb] returns. *)
Theorem parseInt16_hexToRgb (baseColor : string) (c : Gradient.rgb) :
  Gradient.hexToRgbStr baseColor = Some c ->
  parseInt16 (replaceHash baseColor)
  = Some (65536 * Gradient.r c + 256 * Gradient.g c + Gradient.b c)%Z.
Proof. exact (parseInt16_of_hex baseColor c). Qed.

Lemma parseInt16_hexToRgb_witness :
  parseInt16 (replaceHash "#3B82F6") = Some (65536 * 59 + 256 * 130 + 246)%Z.
Proof.
  apply (parseInt16_hexToRgb "#3B82F6" (Gradient.mkRgb 59 130 246)).
  reflexivity.
Defined.

Lemma lighter_shade_saturates (n shade : Z) :
  (255 <= n)%Z -> (0 < shade < 500)%Z ->
  Z.min 255
    (Math_floor (inject_Z n + (255 - inject_Z n) * (1 - inject_Z shade / 500)))
  = 255%Z.
Proof.
  intros Hn Hs. apply Z.min_l. unfold Math_floor.
  pose proof (PaletteFacts.inject_Z_le _ _ Hn) as Qn.
  change (inject_Z 255) with 255 in Qn.
  assert (Q0 : 0 < inject_Z shade).
  { change 0 with (inject_Z 0). apply PaletteFacts.inject_Z_lt. lia. }
  assert (P : 0 <= (inject_Z n - 255) * inject_Z shade).
  { apply Qmult_le_0_compat; lra. }
  assert (H : inject_Z 255
              <= inject_Z n + (255 - inject_Z n) * (1 - inject_Z shade / 500)).
  { change (inject_Z 255) with 255.
    unfold Qdiv. change (/ 500) with (1 # 500). lra. }
  apply Qfloor_resp_le in H. rewrite Qfloor_Z in H. exact H.
Qed.

(** X10.  For a six-digit base colour whose number is at least [0x0000ff]
    (every colour except the blues [#0000xx] below [#0000ff]), the five
    lighter shades of the in-process palette are all [#0000ff]: the
    [Math.min(255, ..)] caps the whole 24-bit number. *)
Theorem extension_lighter_shades_blue
  (baseColor name : string) (c : Gradient.rgb) :
  Gradient.hexToRgbStr baseColor = Some c ->
  (255 <= 65536 * Gradient.r c + 256 * Gradient.g c + Gradient.b c)%Z ->
  Forall (fun shade =>
            Obj.get (palette (generateTailwindPalette baseColor name)) shade
            = Some "#0000ff"%string)
         ["50"; "100"; "200"; "300"; "400"]%string.
Proof.
  intros Hc Hn.
  rewrite PaletteFacts.extension_palette_entries.
  rewrite (parseInt16_of_hex baseColor c Hc).
  set (n := (65536 * Gradient.r c + 256 * Gradient.g c + Gradient.b c)%Z) in *.
  assert (E : forall shade, (0 < shade < 500)%Z ->
                shadeColor baseColor (Some n) shade = "#0000ff"%string).
  { intros shade Hs. unfold shadeColor.
    destruct (Z.ltb_spec shade 500) as [_ | Hge]; [| lia].
    cbn [option_map]. rewrite (lighter_shade_saturates n shade Hn Hs).
    reflexivity. }
  cbn [map TAILWIND_SHADES]. rewrite !E by lia.
  repeat (apply Forall_cons; [reflexivity |]). apply Forall_nil.
Qed.

Lemma extension_lighter_shades_blue_witness :
  Forall (fun shade =>
            Obj.get (palette (generateTailwindPalette "#3B82F6" "primary")) shade
            = Some "#0000ff"%string)
         ["50"; "100"; "200"; "300"; "400"]%string.
Proof.
  apply (extension_lighter_shades_blue "#3B82F6" "primary"
           (Gradient.mkRgb 59 130 246)).
  - reflexivity.
  - cbn. lia.
Defined.

(** X11.  When [parseInt] finds no hexadecimal digit at the start of the
    text (NaN), the in-process palette raises no error: shade 500 is the
    input text and every other shade is the text [#000NaN]. *)
Theorem extension_palette_not_a_number (baseColor name : string) :
  parseInt16 (replaceHash baseColor) = None ->
  generateTailwindPalette baseColor name
  = mkPalette name
      [("50", "#000NaN"); ("100", "#000NaN"); ("200", "#000NaN");
       ("300", "#000NaN"); ("400", "#000NaN"); ("500", baseColor);
       ("600", "#000NaN"); ("700", "#000NaN"); ("800", "#000NaN");
       ("900", "#000NaN"); ("950", "#000NaN")]%string.
Proof.
  intros H.
  pose proof (PaletteFacts.extension_palette_entries baseColor name) as E.
  rewrite H in E.
  destruct (generateTailwindPalette baseColor name) as [n p] eqn:G.
  assert (Hn : n = name).
  { unfold generateTailwindPalette in G. injection G as <- _. reflexivity. }
  cbn [palette] in E. rewrite E, Hn. reflexivity.
Qed.

Lemma extension_palette_not_a_number_witness :
  generateTailwindPalette "red" "primary"
  = mkPalette "primary"
      [("50", "#000NaN"); ("100", "#000NaN"); ("200", "#000NaN");
       ("300", "#000NaN"); ("400", "#000NaN"); ("500", "red");
       ("600", "#000NaN"); ("700", "#000NaN"); ("800", "#000NaN");
       ("900", "#000NaN"); ("950", "#000NaN")]%string.
Proof.
  apply (extension_palette_not_a_number "red" "primary"). reflexivity.
Defined.

(** X12.  Whatever the input text, the in-process palette carries the
    given name, lists exactly the eleven shade keys in ascending order,
    and maps shade 500 to the input text itself. *)
Theorem extension_palette_shape (baseColor name : string) :
  Config.name (generateTailwindPalette baseColor name) = name
  /\ map fst (palette (generateTailwindPalette baseColor name))
     = ["50"; "100"; "200"; "300"; "400"; "500"; "600"; "700"; "800"; "900";
        "950"]%string
  /\ Obj.get (palette (generateTailwindPalette baseColor name)) "500"
     = Some baseColor.
Proof.
  split; [reflexivity |]. split.
  - rewrite PaletteFacts.extension_palette_entries. reflexivity.
  - apply PaletteFacts.extension_palette_500.
Qed.

End ExtensionPaletteFacts.

(* ================================================================== *)
(** ** The shade curve of the server palette *)

Module ServerPaletteFacts.

Import Config.
Local Open Scope Q_scope.

Lemma Math_max_spec (x y : Q) :
  x <= Chroma.Math_max x y /\ y <= Chroma.Math_max x y
  /\ (Chroma.Math_max x y == x \/ Chroma.Math_max x y == y).
Proof.
  unfold Chroma.Math_max. destruct (Qle_bool x y) eqn:E.
  - apply Qle_bool_iff in E. repeat split; try lra; right; reflexivity.
  - assert (H : ~ x <= y) by (intros H; apply Qle_bool_iff in H; congruence).
    repeat split; try lra; left; reflexivity.
Qed.

Lemma Math_min_spec (x y : Q) :
  Chroma.Math_min x y <= x /\ Chroma.Math_min x y <= y
  /\ (Chroma.Math_min x y == x \/ Chroma.Math_min x y == y).
Proof.
  unfold Chroma.Math_min. destruct (Qle_bool x y) eqn:E.
  - apply Qle_bool_iff in E. repeat split; try lra; left; reflexivity.
  - assert (H : ~ x <= y) by (intros H; apply Qle_bool_iff in H; congruence).
    repeat split; try lra; right; reflexivity.
Qed.

(** X13.  Light side of the server curve (shade keys 50 to 500): for a
    base saturation and lightness in [0,1], the saturation handed to
    [chroma.hsl] lies between 1/10 and 1 and never exceeds the larger of
    the base saturation and 1/10, and the lightness lies between the base
    lightness and 0.95. *)
Theorem shadeHsl_light_bounds (base : Chroma.hsl) (shade : Z) :
  0 <= Chroma.s base <= 1 -> 0 <= Chroma.l base <= 1 ->
  (50 <= shade <= 500)%Z ->
  let x := McpServer.shadeHsl base shade in
  1 # 10 <= Chroma.s x <= 1
  /\ Chroma.s x <= Chroma.Math_max (1 # 10) (Chroma.s base)
  /\ (Chroma.l base <= 95 # 100 ->
      Chroma.l base <= Chroma.l x <= 95 # 100)
  /\ (95 # 100 <= Chroma.l base ->
      95 # 100 <= Chroma.l x <= Chroma.l base).
Proof.
  intros Hs Hl Hk. cbv zeta. unfold McpServer.shadeHsl.
  destruct (Z.leb_spec shade 500) as [_ | Hgt]; [| lia].
  cbn [Chroma.s Chroma.l].
  assert (Q1 : 50 <= inject_Z shade).
  { change 50 with (inject_Z 50). apply PaletteFacts.inject_Z_le. lia. }
  assert (Q2 : inject_Z shade <= 500).
  { change 500 with (inject_Z 500). apply PaletteFacts.inject_Z_le. lia. }
  set (k := inject_Z shade) in *.
  set (ratio := (500 - k) / 450).
  assert (Hr : 0 <= ratio <= 1).
  { unfold ratio, Qdiv. change (/ 450) with (1 # 450). lra. }
  set (s := Chroma.s base) in *. set (l := Chroma.l base) in *.
  destruct (Math_max_spec (1 # 10) (s * (1 - ratio * (7 # 10))))
    as (M1 & M2 & M3).
  destruct (Math_max_spec (1 # 10) s) as (N1 & N2 & _).
  assert (Hprod : s * (1 - ratio * (7 # 10)) <= s) by nra.
  clearbody ratio.
  repeat split; try lra; try (destruct M3 as [M3 | M3]; rewrite M3; lra);
    nra.
Qed.

Lemma shadeHsl_light_bounds_witness :
  let x := McpServer.shadeHsl (Chroma.mkHsl (Num 217) (9 # 10) (6 # 10)) 100 in
  1 # 10 <= Chroma.s x <= 1
  /\ Chroma.s x <= Chroma.Math_max (1 # 10) (9 # 10)
  /\ (6 # 10 <= 95 # 100 -> 6 # 10 <= Chroma.l x <= 95 # 100)
  /\ (95 # 100 <= 6 # 10 -> 95 # 100 <= Chroma.l x <= 6 # 10).
Proof.
  apply (shadeHsl_light_bounds (Chroma.mkHsl (Num 217) (9 # 10) (6 # 10)) 100).
  - cbn. lra.
  - cbn. lra.
  - lia.
Defined.

(** X14.  Dark side of the server curve (shade keys above 500, up to
    950): for a base saturation and lightness in [0,1], the lightness
    stays between 15% of the base lightness and the base lightness, and
    the saturation stays between the base saturation and 1. *)
Theorem shadeHsl_dark_bounds (base : Chroma.hsl) (shade : Z) :
  0 <= Chroma.s base <= 1 -> 0 <= Chroma.l base <= 1 ->
  (500 < shade <= 950)%Z ->
  let x := McpServer.shadeHsl base shade in
  (15 # 100) * Chroma.l base <= Chroma.l x <= Chroma.l base
  /\ Chroma.s base <= Chroma.s x <= 1.
Proof.
  intros Hs Hl Hk. cbv zeta. unfold McpServer.shadeHsl.
  destruct (Z.leb_spec shade 500) as [Hle | _]; [lia |].
  cbn [Chroma.s Chroma.l].
  assert (Q1 : 500 <= inject_Z shade).
  { change 500 with (inject_Z 500). apply PaletteFacts.inject_Z_le. lia. }
  assert (Q2 : inject_Z shade <= 950).
  { change 950 with (inject_Z 950). apply PaletteFacts.inject_Z_le. lia. }
  set (k := inject_Z shade) in *.
  set (ratio := (k - 500) / 450).
  assert (Hr : 0 <= ratio <= 1).
  { unfold ratio, Qdiv. change (/ 450) with (1 # 450). lra. }
  set (s := Chroma.s base) in *. set (l := Chroma.l base) in *.
  destruct (Math_min_spec 1 (s * (1 + ratio * (2 # 10)))) as (M1 & M2 & M3).
  assert (Hprod : s <= s * (1 + ratio * (2 # 10))) by nra.
  clearbody ratio.
  repeat split; try nra; try lra.
Qed.

Lemma shadeHsl_dark_bounds_witness :
  let x := McpServer.shadeHsl (Chroma.mkHsl (Num 217) (9 # 10) (6 # 10)) 900 in
  (15 # 100) * (6 # 10) <= Chroma.l x <= 6 # 10
  /\ 9 # 10 <= Chroma.s x <= 1.
Proof.
  apply (shadeHsl_dark_bounds (Chroma.mkHsl (Num 217) (9 # 10) (6 # 10)) 900).
  - cbn. lra.
  - cbn. lra.
  - lia.
Defined.

(** X15.  At shade 500 the server curve keeps the hue and the lightness
    of the base and replaces the saturation [s] by [max(0.1, s)]: the
    base is handed back to [chroma.hsl] unchanged exactly when its
    saturation is at least 1/10. *)
Theorem shadeHsl_500 (base : Chroma.hsl) :
  let x := McpServer.shadeHsl base 500 in
  Chroma.h x = Chroma.h base
  /\ Chroma.l x == Chroma.l base
  /\ Chroma.s x == Chroma.Math_max (1 # 10) (Chroma.s base)
  /\ (Chroma.s x == Chroma.s base <-> 1 # 10 <= Chroma.s base).
Proof.
  cbv zeta. unfold McpServer.shadeHsl. cbn [Z.leb Z.compare Pos.compare
    Pos.compare_cont Chroma.h Chroma.s Chroma.l].
  set (s := Chroma.s base). set (l := Chroma.l base).
  assert (E : s * (1 - (500 - inject_Z 500) / 450 * (7 # 10)) == s).
  { change (inject_Z 500) with 500. field. }
  assert (Em : Chroma.Math_max (1 # 10)
                 (s * (1 - (500 - inject_Z 500) / 450 * (7 # 10)))
               == Chroma.Math_max (1 # 10) s).
  { destruct (Math_max_spec (1 # 10)
                (s * (1 - (500 - inject_Z 500) / 450 * (7 # 10))))
      as (A1 & A2 & A3).
    destruct (Math_max_spec (1 # 10) s) as (B1 & B2 & B3).
    destruct A3 as [A3 | A3], B3 as [B3 | B3]; lra. }
  split; [reflexivity |]. split; [| split].
  - change (inject_Z 500) with 500. field.
  - exact Em.
  - rewrite Em. destruct (Math_max_spec (1 # 10) s) as (B1 & B2 & B3).
    split; intros H; [lra |]. destruct B3 as [B3 | B3]; lra.
Qed.

(** X16.  For every six-digit base colour the server palette carries the
    given name and lists exactly the eleven shade keys in ascending
    order. *)
Theorem server_palette_shape (baseColor name : string) (c : Gradient.rgb) :
  Gradient.hexToRgbStr baseColor = Some c ->
  exists p,
    McpServer.generateTailwindPalette baseColor name = Some p
    /\ Config.name p = name
    /\ map fst (palette p)
       = ["50"; "100"; "200"; "300"; "400"; "500"; "600"; "700"; "800"; "900";
          "950"]%string.
Proof.
  intros H. unfold McpServer.generateTailwindPalette, Chroma.chroma.
  rewrite H. eexists. split; [reflexivity |]. split; [reflexivity |].
  rewrite PaletteFacts.server_palette_entries. reflexivity.
Qed.

Lemma server_palette_shape_witness :
  exists p,
    McpServer.generateTailwindPalette "#3b82f6" "primary" = Some p
    /\ Config.name p = "primary"%string
    /\ map fst (palette p)
       = ["50"; "100"; "200"; "300"; "400"; "500"; "600"; "700"; "800"; "900";
          "950"]%string.
Proof.
  apply (server_palette_shape "#3b82f6" "primary" (Gradient.mkRgb 59 130 246)).
  reflexivity.
Defined.

End ServerPaletteFacts.

(* ================================================================== *)
(** ** Collected palettes: lookup, override and order *)

Module CollectFacts.

Import Config Command.

Section Lookup.

Context {V : Type}.

Implicit Types (o : Obj.t V) (k : string) (v : V).

Lemma get_absent o k : Obj.has k o = false -> Obj.get o k = None.
Proof.
  induction o as [| [k0 v0] o IH]; cbn; [reflexivity |].
  intros H. apply orb_false_iff in H. destruct H as [H1 H2].
  rewrite H1. apply IH, H2.
Qed.

Lemma get_update_same o k v :
  Obj.has k o = true -> Obj.get (Obj.update k v o) k = Some v.
Proof.
  induction o as [| [k0 v0] o IH]; cbn; [discriminate |].
  destruct (String.eqb k0 k) eqn:E; cbn; rewrite E; [reflexivity |].
  intros H. apply IH, H.
Qed.

Lemma get_update_other o k k' v :
  k <> k' -> Obj.get (Obj.update k v o) k' = Obj.get o k'.
Proof.
  intros Hne. induction o as [| [k0 v0] o IH]; cbn; [reflexivity |].
  destruct (String.eqb k0 k) eqn:E; cbn.
  - apply String.eqb_eq in E. subst k0.
    destruct (String.eqb k k') eqn:E'; [| reflexivity].
    apply String.eqb_eq in E'. contradiction.
  - rewrite IH. reflexivity.
Qed.

Lemma get_insertIndex_same i o k v :
  Obj.has k o = false -> Obj.get (Obj.insertIndex i k v o) k = Some v.
Proof.
  induction o as [| [k0 v0] o IH]; cbn; intros H.
  - rewrite String.eqb_refl. reflexivity.
  - apply orb_false_iff in H. destruct H as [H1 H2].
    destruct (Obj.arrayIndex k0) as [j |];
      [destruct (i <? j)%Z |]; cbn; rewrite ?String.eqb_refl, ?H1; auto.
Qed.

Lemma get_insertIndex_other i o k k' v :
  k <> k' -> Obj.get (Obj.insertIndex i k v o) k' = Obj.get o k'.
Proof.
  intros Hne. apply String.eqb_neq in Hne.
  induction o as [| [k0 v0] o IH]; cbn.
  - rewrite Hne. reflexivity.
  - destruct (Obj.arrayIndex k0) as [j |];
      [destruct (i <? j)%Z |]; cbn; rewrite ?Hne, ?IH; reflexivity.
Qed.

Lemma get_app_new o k k' v :
  Obj.get (o ++ [(k, v)])%list k'
  = match Obj.get o k' with
    | Some x => Some x
    | None => if String.eqb k k' then Some v else None
    end.
Proof.
  induction o as [| [k0 v0] o IH]; cbn; [reflexivity |].
  destruct (String.eqb k0 k'); [reflexivity | apply IH].
Qed.

(** Reading back the key just assigned gives the value assigned. *)
Lemma get_set_same o k v : Obj.get (Obj.set o k v) k = Some v.
Proof.
  unfold Obj.set. destruct (Obj.has k o) eqn:H.
  - apply get_update_same, H.
  - destruct (Obj.arrayIndex k) as [i |].
    + apply get_insertIndex_same, H.
    + rewrite get_app_new, (get_absent o k H), String.eqb_refl. reflexivity.
Qed.

(** An assignment leaves every other key as it was. *)
Lemma get_set_other o k k' v :
  k <> k' -> Obj.get (Obj.set o k v) k' = Obj.get o k'.
Proof.
  intros Hne. unfold Obj.set. destruct (Obj.has k o) eqn:H.
  - apply get_update_other, Hne.
  - destruct (Obj.arrayIndex k) as [i |].
    + apply get_insertIndex_other, Hne.
    + rewrite get_app_new. apply String.eqb_neq in Hne. rewrite Hne.
      destruct (Obj.get o k'); reflexivity.
Qed.

End Lookup.

Lemma collect_snoc (palettes : list namedPalette) (p : namedPalette) :
  collect (palettes ++ [p]) = assign (collect palettes) p.
Proof. unfold collect. rewrite fold_left_app. reflexivity. Qed.

(** X17.  In the object [generateTailwindConfig] collects, a name other
    than [__proto__] maps to the palette of the last entry of the input
    that bears it (and to nothing when no entry does): a later palette
    replaces an earlier one of the same name.  The name [__proto__] is
    never listed. *)
Theorem collect_last_wins (palettes : list namedPalette) (n : string) :
  n <> "__proto__"%string ->
  Obj.get (collect palettes) n = lastNamed n palettes
  /\ Obj.get (collect palettes) "__proto__" = None.
Proof.
  intros Hn. unfold lastNamed.
  induction palettes as [| p palettes [IH1 IH2]] using rev_ind.
  - split; reflexivity.
  - rewrite collect_snoc, rev_app_distr. cbn [rev app find].
    unfold assign. destruct (String.eqb (name p) "__proto__") eqn:Ep.
    + apply String.eqb_eq in Ep.
      assert (En : String.eqb (name p) n = false).
      { apply String.eqb_neq. congruence. }
      rewrite En. split; assumption.
    + apply String.eqb_neq in Ep. split.
      * destruct (String.eqb (name p) n) eqn:En.
        -- apply String.eqb_eq in En. subst n. apply get_set_same.
        -- apply String.eqb_neq in En.
           rewrite get_set_other by exact En. exact IH1.
      * rewrite get_set_other by exact Ep. exact IH2.
Qed.

Lemma collect_last_wins_witness :
  Obj.get (collect [mkPalette "primary" [("500", "#111111")];
                    mkPalette "accent" [("500", "#222222")];
                    mkPalette "primary" [("500", "#333333")]]) "primary"
  = lastNamed "primary"
      [mkPalette "primary" [("500", "#111111")];
       mkPalette "accent" [("500", "#222222")];
       mkPalette "primary" [("500", "#333333")]]
  /\ Obj.get (collect [mkPalette "primary" [("500", "#111111")];
                       mkPalette "accent" [("500", "#222222")];
                       mkPalette "primary" [("500", "#333333")]]) "__proto__"
     = None.
Proof.
  apply (collect_last_wins
           [mkPalette "primary" [("500", "#111111")];
            mkPalette "accent" [("500", "#222222")];
            mkPalette "primary" [("500", "#333333")]] "primary").
  discriminate.
Defined.

(** X18.  A palette whose name is an array index (such as ["7"]) is
    listed before a palette with an ordinary name, whichever comes first
    in the input: both input orders give the same output, in every
    format. *)
Theorem index_named_palette_first
  (nl format : string) (p1 p2 : namedPalette) (i : Z) :
  Obj.arrayIndex (name p1) = None -> name p1 <> "__proto__"%string ->
  Obj.arrayIndex (name p2) = Some i ->
  collect [p1; p2] = [(name p2, palette p2); (name p1, palette p1)]
  /\ generateTailwindConfigWith nl [p1; p2] format
     = generateTailwindConfigWith nl [p2; p1] format.
Proof.
  intros H1 Hp H2.
  assert (Hne : name p1 <> name p2) by congruence.
  assert (Hp2 : name p2 <> "__proto__"%string).
  { intros E. rewrite E in H2. discriminate H2. }
  apply String.eqb_neq in Hp, Hp2.
  assert (E12 : String.eqb (name p1) (name p2) = false)
    by (apply String.eqb_neq; exact Hne).
  assert (E21 : String.eqb (name p2) (name p1) = false)
    by (apply String.eqb_neq; congruence).
  assert (C12 : collect [p1; p2]
                = [(name p2, palette p2); (name p1, palette p1)]).
  { unfold collect, assign, Obj.set. cbn [fold_left Obj.has].
    rewrite Hp, H1. cbn [app Obj.has]. rewrite Hp2, E12, H2.
    cbn [orb Obj.insertIndex]. rewrite H1. reflexivity. }
  assert (C21 : collect [p2; p1]
                = [(name p2, palette p2); (name p1, palette p1)]).
  { unfold collect, assign, Obj.set. cbn [fold_left Obj.has].
    rewrite Hp2, H2. cbn [Obj.insertIndex Obj.has]. rewrite Hp, E21, H1.
    reflexivity. }
  split; [exact C12 |].
  unfold generateTailwindConfigWith. rewrite C12, C21. reflexivity.
Qed.

Lemma index_named_palette_first_witness :
  collect [mkPalette "primary" [("500", "#111111")];
           mkPalette "7" [("500", "#222222")]]
  = [("7", [("500", "#222222")]); ("primary", [("500", "#111111")])]
  /\ generateTailwindConfigWith JSON.LF
       [mkPalette "primary" [("500", "#111111")];
        mkPalette "7" [("500", "#222222")]] "css"
     = generateTailwindConfigWith JSON.LF
         [mkPalette "7" [("500", "#222222")];
          mkPalette "primary" [("500", "#111111")]] "css".
Proof.
  apply (index_named_palette_first JSON.LF "css"
           (mkPalette "primary" [("500", "#111111")])
           (mkPalette "7" [("500", "#222222")]) 7).
  - reflexivity.
  - discriminate.
  - reflexivity.
Defined.

Lemma collect_single (p : namedPalette) :
  name p <> "__proto__"%string -> collect [p] = [(name p, palette p)].
Proof.
  intros H. apply String.eqb_neq in H.
  unfold collect, assign, Obj.set. cbn [fold_left Obj.has]. rewrite H.
  destruct (Obj.arrayIndex (name p)); reflexivity.
Qed.

(** X19.  The "generate palette" command writes, for the [css] and
    [json] formats, exactly the text [generateTailwindConfig] gives for
    its fixed table (when the name is not [__proto__]); the base colour
    reaches shade 500 only: every other shade of the table is the same
    for all base colours. *)
Theorem command_text_is_formatter (baseColor paletteName : string) :
  paletteName <> "__proto__"%string ->
  configText baseColor paletteName "css"
  = Extension.generateTailwindConfig
      [mkPalette paletteName (basicPalette baseColor)] "css"
  /\ configText baseColor paletteName "json"
     = Extension.generateTailwindConfig
         [mkPalette paletteName (basicPalette baseColor)] "json"
  /\ Obj.get (basicPalette baseColor) "500" = Some baseColor
  /\ forall other shade,
       shade <> "500"%string ->
       Obj.get (basicPalette baseColor) shade
       = Obj.get (basicPalette other) shade.
Proof.
  intros Hn.
  unfold Extension.generateTailwindConfig, generateTailwindConfigWith.
  rewrite (collect_single (mkPalette paletteName (basicPalette baseColor)) Hn).
  repeat split.
  intros other shade Hs. unfold basicPalette. cbn [Obj.get].
  apply String.eqb_neq in Hs. rewrite String.eqb_sym in Hs. rewrite Hs.
  reflexivity.
Qed.

Lemma command_text_is_formatter_witness :
  configText "#3B82F6" "primary" "css"
  = Extension.generateTailwindConfig
      [mkPalette "primary" (basicPalette "#3B82F6")] "css"
  /\ configText "#3B82F6" "primary" "json"
     = Extension.generateTailwindConfig
         [mkPalette "primary" (basicPalette "#3B82F6")] "json"
  /\ Obj.get (basicPalette "#3B82F6") "500" = Some "#3B82F6"%string
  /\ forall other shade,
       shade <> "500"%string ->
       Obj.get (basicPalette "#3B82F6") shade
       = Obj.get (basicPalette other) shade.
Proof.
  apply (command_text_is_formatter "#3B82F6" "primary"). discriminate.
Defined.

(** X20.  For each of the four strategies, whatever the hue and the
    names, the in-process scheme tool returns three palettes whose
    shades are those of the palette of [#3B82F6]; only their names
    differ, taken from [colorNames] with [colorN] for a missing or empty
    name. *)
Theorem extension_scheme_same_shades
  (strategy : string) (baseHue : Q) (colorNames : list string) :
  In strategy ["complementary"; "analogous"; "monochromatic"; "triadic"]%string ->
  exists p1 p2 p3,
    Extension.schemePalettes strategy baseHue colorNames = Return [p1; p2; p3]
    /\ map name [p1; p2; p3]
       = map (Extension.paletteName colorNames) [0; 1; 2]%nat
    /\ Forall (fun p =>
                 palette p
                 = palette (Extension.generateTailwindPalette "#3B82F6" ""))
              [p1; p2; p3].
Proof.
  intros H.
  assert (E : forall n1 n2,
             palette (Extension.generateTailwindPalette "#3B82F6" n1)
             = palette (Extension.generateTailwindPalette "#3B82F6" n2))
    by reflexivity.
  cbn [In] in H.
  destruct H as [<- | [<- | [<- | [<- | []]]]];
    (eexists _, _, _; split; [reflexivity |]; split; [reflexivity |];
     repeat constructor; apply E).
Qed.

Lemma extension_scheme_same_shades_witness :
  exists p1 p2 p3,
    Extension.schemePalettes "analogous" 200 ["brand"]%string
    = Return [p1; p2; p3]
    /\ map name [p1; p2; p3]
       = map (Extension.paletteName ["brand"]%string) [0; 1; 2]%nat
    /\ Forall (fun p =>
                 palette p
                 = palette (Extension.generateTailwindPalette "#3B82F6" ""))
              [p1; p2; p3].
Proof.
  apply (extension_scheme_same_shades "analogous" 200 ["brand"]%string).
  simpl. auto.
Defined.

(** X21.  The two copies of [generateTailwindConfig] return the same
    text for every format other than [css] (the [js] wrapper, and JSON for
    [json] and for any unknown format). *)
Theorem formatter_copies_agree
  (palettes : list namedPalette) (format : string) :
  format <> "css"%string ->
  McpServer.generateTailwindConfig palettes format
  = Extension.generateTailwindConfig palettes format.
Proof.
  intros H. apply String.eqb_neq in H.
  unfold McpServer.generateTailwindConfig, Extension.generateTailwindConfig,
    generateTailwindConfigWith.
  rewrite H. reflexivity.
Qed.

Lemma formatter_copies_agree_witness :
  McpServer.generateTailwindConfig
    [mkPalette "primary" [("50", "#eff6ff")]] "js"
  = Extension.generateTailwindConfig
      [mkPalette "primary" [("50", "#eff6ff")]] "js".
Proof.
  apply (formatter_copies_agree [mkPalette "primary" [("50", "#eff6ff")]] "js").
  discriminate.
Defined.

End CollectFacts.
